(** * Secure-text-server client: a shallow embedding of [client.py]

    The development follows the Python module top to bottom: the byte and
    integer helpers the module takes from the Python runtime, the
    collaborators it imports ([asyncio] streams, [hashlib], [json],
    [Crypto.PublicKey.RSA] and the repository's own [Encryptor] module),
    the [Client] class with its methods, and then the properties of the
    protocol that the specification states. *)

From Stdlib Require Import ZArith Lia List String Ascii Znumtheory.
From Stdlib Require Import Zmod.ZmodInv.
From stdpp Require Import gmap strings list.

Local Open Scope Z_scope.

(** ** Bytes and integers of the Python runtime *)

Abbreviation bytes := (list Byte.byte).

Definition byte_val (b : Byte.byte) : Z := Z.of_N (Byte.to_N b).

Definition byte_of (z : Z) : Byte.byte :=
  match Byte.of_N (Z.to_N (z mod 256)) with
  | Some b => b
  | None => Byte.x00
  end.

Definition bytes_of (l : list Z) : bytes := map byte_of l.

(** [len(b)], as the integer Python compares with. *)
Definition len {A} (l : list A) : Z := Z.of_nat (length l).

(** [int.from_bytes(b, 'big')] *)
Definition int_from_bytes (b : bytes) : Z :=
  fold_left (fun acc x => acc * 256 + byte_val x) b 0.

Fixpoint to_bytes_aux (length : nat) (z : Z) (acc : bytes) : bytes :=
  match length with
  | O => acc
  | S k => to_bytes_aux k (z / 256) (byte_of z :: acc)
  end.

(** [z.bit_length()] *)
Definition bit_length (z : Z) : Z :=
  if z =? 0 then 0 else Z.log2 (Z.abs z) + 1.

(** [z.to_bytes(length, 'big')]: [None] stands for the [OverflowError]
    Python raises for a negative integer or one that needs more than
    [8 * length] bits. *)
Definition to_bytes (length : nat) (z : Z) : option bytes :=
  if (0 <=? z) && (bit_length z <=? 8 * Z.of_nat length)
  then Some (to_bytes_aux length z [])
  else None.

(** Three-argument [pow(base, exp, mod)] on the exponents the module uses
    (RSA exponents, which are not negative) and a non-zero modulus. *)
Definition pow (base exp modulus : Z) : Z := (base ^ exp) mod modulus.

(** ** Module constants *)

Definition CHUNK : Z := 1024.

Definition BUFFER_LIMIT : Z := 256 * 1024 * 1024.

Inductive DataMode := FILE | BYTES.

#[global] Instance DataMode_eq_dec : EqDecision DataMode.
Proof. solve_decision. Defined.

(** ** Exceptions and outcomes of a call *)

Inductive Exception :=
| ConnectionError
| AttributeError
| KeyError
| ValueError
| OverflowError
| UnicodeDecodeError
| JSONDecodeError
| CryptoError.

#[global] Instance Exception_eq_dec : EqDecision Exception.
Proof. solve_decision. Defined.

(** A call returns, raises, or (for a loop run with a bound on its number of
    iterations) is still running when the bound is reached. *)
Inductive Outcome (A : Type) :=
| Returned (a : A)
| Raised (e : Exception)
| Unfinished.

Arguments Returned {A} a.
Arguments Raised {A} e.
Arguments Unfinished {A}.

(** ** Values the client handles *)

(** An RSA key object of [Crypto.PublicKey.RSA]: a public key has no [d]. *)
Record RsaKey := { key_n : Z; key_e : Z; key_d : option Z }.

(** The [SymmetricEncryptor] object built from the session key. *)
Record SymmetricEncryptor := { session_key : bytes }.

(** A [hashlib.sha512()] object: the bytes fed to it so far. *)
Record HashObj := { fed : bytes }.

Definition hash_new : HashObj := {| fed := [] |}.
Definition hash_update (h : HashObj) (data : bytes) : HashObj :=
  {| fed := fed h ++ data |}.

(** A [tempfile.TemporaryFile()]: what has been written to it. *)
Record TmpFile := { file_data : bytes }.

Definition TemporaryFile : TmpFile := {| file_data := [] |}.
Definition file_write (f : TmpFile) (data : bytes) : TmpFile :=
  {| file_data := file_data f ++ data |}.

(** What the receive loop hands to a handler: the decrypted bytes, the
    temporary file, or [None] (on the disconnect path). *)
Inductive Payload :=
| PBytes (b : bytes)
| PFile (f : TmpFile)
| PNone.

(** A user coroutine function given to [Client.event], with its [__name__]. *)
Record Func := { func_name : string; func_id : nat }.

(** The coroutine functions stored in the registration table or used by the
    loop: [default_event] of [_process_incoming_events] and the [wrapper]
    closure of [event], which captures [event_name] and [func]. *)
Inductive AsyncFn :=
| default_event
| wrapper (event_name : string) (func : Func).

(** A coroutine object handed to [asyncio.ensure_future]. *)
Record Task := { task_fn : AsyncFn; task_arg : Payload }.

(** A Python [str], as its code points. *)
Abbreviation text := (list Z).

(** An argument a user function is called with. *)
Inductive Arg :=
| AText (s : text)
| AData (p : Payload).

(** What awaiting a coroutine object does to user code: nothing, or one call
    of a user function. *)
Inductive Invocation :=
| NoCall
| Call (f : Func) (args : list Arg).

(** The [asyncio.StreamWriter] object: the bytes written and whether
    [close()] was called. *)
Record StreamWriter := { written : bytes; closed : bool }.

(** References to the two stream objects [asyncio.open_connection] returns;
    the objects themselves live in the [World]. *)
Inductive ReaderRef := reader_ref.
Inductive WriterRef := writer_ref.

Record Client := {
  name : string;
  address : string * Z;
  reader : option ReaderRef;
  writer : option WriterRef;
  events : gmap string (AsyncFn * DataMode);
  server_public_key : option RsaKey;
  client_public_key : RsaKey;
  client_private_key : RsaKey;
  encryptor : option SymmetricEncryptor
}.

(** Attribute assignments [self.x = v]. *)
Definition set_reader (v : option ReaderRef) (c : Client) : Client :=
  {| name := name c; address := address c; reader := v; writer := writer c;
     events := events c; server_public_key := server_public_key c;
     client_public_key := client_public_key c;
     client_private_key := client_private_key c; encryptor := encryptor c |}.

Definition set_writer (v : option WriterRef) (c : Client) : Client :=
  {| name := name c; address := address c; reader := reader c; writer := v;
     events := events c; server_public_key := server_public_key c;
     client_public_key := client_public_key c;
     client_private_key := client_private_key c; encryptor := encryptor c |}.

Definition set_events (v : gmap string (AsyncFn * DataMode)) (c : Client)
    : Client :=
  {| name := name c; address := address c; reader := reader c;
     writer := writer c; events := v;
     server_public_key := server_public_key c;
     client_public_key := client_public_key c;
     client_private_key := client_private_key c; encryptor := encryptor c |}.

Definition set_server_public_key (v : option RsaKey) (c : Client) : Client :=
  {| name := name c; address := address c; reader := reader c;
     writer := writer c; events := events c; server_public_key := v;
     client_public_key := client_public_key c;
     client_private_key := client_private_key c; encryptor := encryptor c |}.

Definition set_encryptor (v : option SymmetricEncryptor) (c : Client)
    : Client :=
  {| name := name c; address := address c; reader := reader c;
     writer := writer c; events := events c;
     server_public_key := server_public_key c;
     client_public_key := client_public_key c;
     client_private_key := client_private_key c; encryptor := v |}.

(** ** Collaborators the module imports *)

(** [asyncio.StreamReader]: [read n] returns at most [n] bytes and the
    reader after the call. *)
Class Asyncio := {
  StreamReader : Type;
  read : Z -> StreamReader -> bytes * StreamReader
}.

(** The [Encryptor] module the client imports, taken by its interface:
    [SymmetricEncryptor.encrypt]/[decrypt] (session key, data, iv) and
    [AsymmetricEncryptor.encrypt].  [None] is a raised error. *)
Class EncryptorModule := {
  sym_encrypt : bytes -> bytes -> bytes -> bytes;
  sym_decrypt : bytes -> bytes -> bytes -> option bytes;
  asym_encrypt : RsaKey -> bytes -> bytes
}.

(** [hashlib.sha512], [json] on the frame header (the [event] and
    [data_length] entries) and [RSA.import_key]/[export_key]. *)
Class PyLib := {
  sha512 : bytes -> bytes;
  sha512_length : forall data, length (sha512 data) = 64%nat;
  json_dumps : string -> Z -> bytes;
  json_loads : bytes -> option (string * Z);
  import_key : bytes -> option RsaKey;
  export_key : RsaKey -> bytes
}.

Definition hash_digest `{PyLib} (h : HashObj) : bytes := sha512 (fed h).

(** ** [bytes.decode(encoding='utf-8')] *)

Definition continuation (lo hi x : Z) : bool := (lo <=? x) && (x <=? hi).

(** Strict UTF-8 decoding of a list of byte values; [None] is
    [UnicodeDecodeError]. *)
Fixpoint utf8_decode (b : list Z) : option text :=
  match b with
  | [] => Some []
  | b0 :: r0 =>
    if b0 <? 128 then cons b0 <$> utf8_decode r0
    else if (194 <=? b0) && (b0 <=? 223) then
      match r0 with
      | b1 :: r1 =>
        if continuation 128 191 b1
        then cons ((b0 - 192) * 64 + (b1 - 128)) <$> utf8_decode r1
        else None
      | _ => None
      end
    else if (224 <=? b0) && (b0 <=? 239) then
      match r0 with
      | b1 :: b2 :: r2 =>
        let lo := if b0 =? 224 then 160 else 128 in
        let hi := if b0 =? 237 then 159 else 191 in
        if continuation lo hi b1 && continuation 128 191 b2
        then cons ((b0 - 224) * 4096 + (b1 - 128) * 64 + (b2 - 128))
               <$> utf8_decode r2
        else None
      | _ => None
      end
    else if (240 <=? b0) && (b0 <=? 244) then
      match r0 with
      | b1 :: b2 :: b3 :: r3 =>
        let lo := if b0 =? 240 then 144 else 128 in
        let hi := if b0 =? 244 then 143 else 191 in
        if continuation lo hi b1 && continuation 128 191 b2
           && continuation 128 191 b3
        then cons ((b0 - 240) * 262144 + (b1 - 128) * 4096
                   + (b2 - 128) * 64 + (b3 - 128)) <$> utf8_decode r3
        else None
      | _ => None
      end
    else None
  end.

Definition decode (b : bytes) : option text := utf8_decode (map byte_val b).

(** ** The world a client runs in *)

(** The client object, the two stream objects behind its [reader] and
    [writer] references, what was printed, the coroutine objects given to
    [asyncio.ensure_future] (oldest first) and whether the caller's
    [connection_event] was set. *)
Record World `{Asyncio} := {
  self : Client;
  reader_obj : StreamReader;
  writer_obj : StreamWriter;
  stdout : list string;
  futures : list Task;
  connection_event_set : bool
}.

Definition set_self `{Asyncio} (f : Client -> Client) (w : World) : World :=
  {| self := f (self w); reader_obj := reader_obj w;
     writer_obj := writer_obj w; stdout := stdout w; futures := futures w;
     connection_event_set := connection_event_set w |}.

Definition set_reader_obj `{Asyncio} (r : StreamReader) (w : World) : World :=
  {| self := self w; reader_obj := r; writer_obj := writer_obj w;
     stdout := stdout w; futures := futures w;
     connection_event_set := connection_event_set w |}.

Definition set_writer_obj `{Asyncio} (f : StreamWriter -> StreamWriter)
    (w : World) : World :=
  {| self := self w; reader_obj := reader_obj w;
     writer_obj := f (writer_obj w); stdout := stdout w;
     futures := futures w;
     connection_event_set := connection_event_set w |}.

(** A method body: it runs in a world and leaves a world, also when it
    raises. *)
Definition M `{Asyncio} (A : Type) : Type := World -> Outcome A * World.

Definition ret `{Asyncio} {A} (a : A) : M A := fun w => (Returned a, w).

Definition raise `{Asyncio} {A} (e : Exception) : M A :=
  fun w => (Raised e, w).

Definition unfinished `{Asyncio} {A} : M A := fun w => (Unfinished, w).

Definition bind `{Asyncio} {A B} (m : M A) (k : A -> M B) : M B :=
  fun w =>
    match m w with
    | (Returned a, w') => k a w'
    | (Raised e, w') => (Raised e, w')
    | (Unfinished, w') => (Unfinished, w')
    end.

Notation "x <- m ;; k" := (bind m (fun x => k))
  (at level 100, m at next level, right associativity).
Notation "m ;;; k" := (bind m (fun _ => k))
  (at level 100, right associativity).

(** An optional value whose absence raises [e]. *)
Definition or_raise `{Asyncio} {A} (o : option A) (e : Exception) : M A :=
  match o with
  | Some a => ret a
  | None => raise e
  end.

Section ClientMethods.
Context `{Asyncio} `{EncryptorModule} `{PyLib}.

(** *** Primitive effects *)

Definition get_self : M Client := fun w => (Returned (self w), w).

Definition modify_self (f : Client -> Client) : M unit :=
  fun w => (Returned tt, set_self f w).

(** [r.read(n)] on a reference that may be [None]. *)
Definition stream_read (r : option ReaderRef) (n : Z) : M bytes :=
  fun w =>
    match r with
    | None => (Raised AttributeError, w)
    | Some reader_ref =>
      let result := read n (reader_obj w) in
      (Returned (fst result), set_reader_obj (snd result) w)
    end.

(** [wr.write(data)] *)
Definition stream_write (wr : option WriterRef) (data : bytes) : M unit :=
  fun w =>
    match wr with
    | None => (Raised AttributeError, w)
    | Some writer_ref =>
      (Returned tt,
       set_writer_obj
         (fun o => {| written := written o ++ data; closed := closed o |}) w)
    end.

(** [await wr.drain()]: the bytes written are already in [written]. *)
Definition stream_drain (wr : option WriterRef) : M unit :=
  fun w =>
    match wr with
    | None => (Raised AttributeError, w)
    | Some writer_ref => (Returned tt, w)
    end.

(** [wr.close()] *)
Definition stream_close (wr : option WriterRef) : M unit :=
  fun w =>
    match wr with
    | None => (Raised AttributeError, w)
    | Some writer_ref =>
      (Returned tt,
       set_writer_obj
         (fun o => {| written := written o; closed := true |}) w)
    end.

Definition print (s : string) : M unit :=
  fun w =>
    (Returned tt,
     {| self := self w; reader_obj := reader_obj w;
        writer_obj := writer_obj w; stdout := stdout w ++ [s];
        futures := futures w;
        connection_event_set := connection_event_set w |}).

(** [asyncio.ensure_future(coro)]: the coroutine object is scheduled, not
    awaited. *)
Definition ensure_future (t : Task) : M unit :=
  fun w =>
    (Returned tt,
     {| self := self w; reader_obj := reader_obj w;
        writer_obj := writer_obj w; stdout := stdout w;
        futures := futures w ++ [t];
        connection_event_set := connection_event_set w |}).

(** [connection_event.set()] *)
Definition connection_event_set_now : M unit :=
  fun w =>
    (Returned tt,
     {| self := self w; reader_obj := reader_obj w;
        writer_obj := writer_obj w; stdout := stdout w;
        futures := futures w; connection_event_set := true |}).

(** [self.encryptor.decrypt(data, iv)] *)
Definition self_decrypt (data iv : bytes) : M bytes :=
  c <- get_self ;;
  enc <- or_raise (encryptor c) AttributeError ;;
  or_raise (sym_decrypt (session_key enc) data iv) CryptoError.

(** [self.encryptor.encrypt(data, iv)] *)
Definition self_encrypt (data iv : bytes) : M bytes :=
  c <- get_self ;;
  enc <- or_raise (encryptor c) AttributeError ;;
  ret (sym_encrypt (session_key enc) data iv).

(** [try: body except ConnectionError: handler] *)
Definition try_except_ConnectionError {A} (body handler : M A) : M A :=
  fun w =>
    match body w with
    | (Raised ConnectionError, w') => handler w'
    | r => r
    end.

(** [try: body finally: final].  A body that is still running has not
    reached its [finally] block. *)
Definition try_finally {A} (body : M A) (final : M unit) : M A :=
  fun w =>
    match body w with
    | (Unfinished, w') => (Unfinished, w')
    | (r, w') =>
      match final w' with
      | (Returned _, w'') => (r, w'')
      | (Raised e, w'') => (Raised e, w'')
      | (Unfinished, w'') => (Unfinished, w'')
      end
    end.

(** *** [Client.write_to_file] *)

Fixpoint write_to_file_loop (fuel : nat) (file : TmpFile)
    (reader : option ReaderRef) (remaining : Z) (iv : bytes)
    (file_hash : HashObj) : M (bytes * TmpFile) :=
  if remaining >? 0 then
    match fuel with
    | O => unfinished
    | S fuel' =>
      let chunk := Z.min remaining CHUNK in
      encrypted_data <- stream_read reader chunk ;;
      if negb (len encrypted_data =? chunk) then raise ConnectionError
      else
        data <- self_decrypt encrypted_data iv ;;
        let file := file_write file data in
        let file_hash := hash_update file_hash data in
        write_to_file_loop fuel' file reader (remaining - chunk) iv file_hash
    end
  else ret (hash_digest file_hash, file).

(** The loop takes at least one byte off [remaining] per iteration, so
    [data_len] iterations are enough.  The file object is mutated in place
    in the source; here it is returned next to the digest. *)
Definition write_to_file (file : TmpFile) (reader : option ReaderRef)
    (data_len : Z) (iv : bytes) : M (bytes * TmpFile) :=
  write_to_file_loop (Z.to_nat data_len) file reader data_len iv hash_new.

(** *** [Client._process_incoming_events] *)

(** [self.reader.read(n)] *)
Definition self_reader_read (n : Z) : M bytes :=
  c <- get_self ;; stream_read (reader c) n.

(** Lines 142-165: the IV, the encrypted length field, the encrypted header
    and its [event] and [data_length] entries. *)
Definition read_frame_header : M (bytes * (string * Z)) :=
  iv <- self_reader_read 16 ;;
  if negb (len iv =? 16) then raise ConnectionError
  else
    encrypted_data <- self_reader_read 16 ;;
    if negb (len encrypted_data =? 16) then raise ConnectionError
    else
      data <- self_decrypt encrypted_data iv ;;
      let data_len := int_from_bytes data in
      encrypted_data <- self_reader_read data_len ;;
      if negb (len encrypted_data =? data_len) then raise ConnectionError
      else
        data <- self_decrypt encrypted_data iv ;;
        data <- or_raise (json_loads data) JSONDecodeError ;;
        ret (iv, data).

(** Line 167: [self.events.get(data['event'], (default_event, ...))] *)
Definition lookup_event (c : Client) (event : string) (data_len : Z)
    : AsyncFn * DataMode :=
  default (default_event, if data_len >? BUFFER_LIMIT then FILE else BYTES)
          (events c !! event).

(** Lines 171-187: the payload, read whole or streamed to a temporary file,
    with the digest of its plaintext. *)
Definition receive_payload (data_mode : DataMode) (data_len : Z) (iv : bytes)
    : M (Payload * bytes) :=
  match data_mode with
  | BYTES =>
    buffer <- self_reader_read data_len ;;
    if negb (len buffer =? data_len) then raise ConnectionError
    else
      buffer <- self_decrypt buffer iv ;;
      let hsh := sha512 buffer in
      ret (PBytes buffer, hsh)
  | FILE =>
    let tmp_file := TemporaryFile in
    c <- get_self ;;
    r <- write_to_file tmp_file (reader c) data_len iv ;;
    ret (PFile (snd r), fst r)
  end.

(** Lines 189-209: the signature is read and checked, and the event is
    dispatched. *)
Definition verify_and_dispatch (event_coroutine : AsyncFn) (buffer : Payload)
    (hsh : bytes) : M unit :=
  let hsh := int_from_bytes hsh in
  signature <- self_reader_read 2048 ;;
  let signature := int_from_bytes signature in
  c <- get_self ;;
  server_pub_key <- or_raise (server_public_key c) AttributeError ;;
  let hash_from_sign :=
    pow signature (key_e server_pub_key) (key_n server_pub_key) in
  (if negb (hsh =? hash_from_sign)
   then print "something wrong with the signature"%string
   else ret tt) ;;;
  ensure_future {| task_fn := event_coroutine; task_arg := buffer |}.

(** One iteration of the [while True] loop. *)
Definition process_incoming_event : M unit :=
  hdr <- read_frame_header ;;
  let iv := fst hdr in
  let event := fst (snd hdr) in
  let data_len := snd (snd hdr) in
  c <- get_self ;;
  let entry := lookup_event c event data_len in
  r <- receive_payload (snd entry) data_len iv ;;
  verify_and_dispatch (fst entry) (fst r) (snd r).

(** The loop leaves only by an exception; [fuel] bounds the number of frames
    looked at. *)
Fixpoint process_incoming_events (fuel : nat) : M unit :=
  match fuel with
  | O => unfinished
  | S fuel' => process_incoming_event ;;; process_incoming_events fuel'
  end.

(** *** [Client.create_connection] *)

(** Lines 98-122.  [asyncio.open_connection] returns the two stream objects
    of the world; [generated_key] is what
    [SymmetricEncryptor.generate_key()] draws. *)
Definition handshake (connection_event : bool) (generated_key : bytes)
    : M unit :=
  let reader := Some reader_ref in
  let writer := Some writer_ref in
  modify_self (set_reader reader) ;;;
  modify_self (set_writer writer) ;;;
  c <- get_self ;;
  public_key_len <-
    or_raise (to_bytes 8 (len (export_key (client_public_key c))))
             OverflowError ;;
  stream_write writer public_key_len ;;;
  stream_write writer (export_key (client_public_key c)) ;;;
  key_len_bytes <- stream_read reader 8 ;;
  let key_len := int_from_bytes key_len_bytes in
  key_bytes <- stream_read reader key_len ;;
  server_key <- or_raise (import_key key_bytes) ValueError ;;
  modify_self (set_server_public_key (Some server_key)) ;;;
  let enc := {| session_key := generated_key |} in
  modify_self (set_encryptor (Some enc)) ;;;
  let enc_session_key := asym_encrypt server_key (session_key enc) in
  enc_len <- or_raise (to_bytes 8 (len enc_session_key)) OverflowError ;;
  stream_write writer enc_len ;;;
  stream_write writer enc_session_key ;;;
  stream_drain writer ;;;
  if connection_event then connection_event_set_now else ret tt.

(** Line 126: [asyncio.ensure_future(self.events['disconnect'][0](None))] *)
Definition on_connection_error : M unit :=
  c <- get_self ;;
  entry <- or_raise (events c !! "disconnect"%string) KeyError ;;
  ensure_future {| task_fn := fst entry; task_arg := PNone |}.

(** Lines 127-134: the [finally] block.  A [ConnectionError] of
    [wait_closed()] is swallowed there, so waiting changes nothing here. *)
Definition release_stream : M unit :=
  c <- get_self ;;
  stream_close (writer c) ;;;
  modify_self (set_reader None) ;;;
  modify_self (set_writer None).

Definition create_connection (fuel : nat) (connection_event : bool)
    (generated_key : bytes) : M unit :=
  handshake connection_event generated_key ;;;
  try_finally
    (try_except_ConnectionError (process_incoming_events fuel)
                                on_connection_error)
    release_stream.

(** *** [Client.event] *)

(** The [reserved_events] dictionary of [wrapper]: each entry is what calling
    its lambda does. *)
Definition reserved_events (func : Func) (data : Payload)
    : gmap string (Outcome Invocation) :=
  <["connect"%string := Returned (Call func [])]>
  (<["disconnect"%string := Returned (Call func [])]>
  (<["pong"%string := Returned (Call func [])]>
  (<["message"%string :=
      match data with
      | PBytes b =>
        match decode b with
        | Some s => Returned (Call func [AText s])
        | None => Raised UnicodeDecodeError
        end
      | _ => Raised AttributeError
      end]> ∅))).

(** Awaiting [fn(data)] for a coroutine function of the table. *)
Definition await_call (fn : AsyncFn) (data : Payload) : Outcome Invocation :=
  match fn with
  | default_event => Returned NoCall
  | wrapper event_name func =>
    default (Returned (Call func [AData data]))
            (reserved_events func data !! event_name)
  end.

(** [self.event(name, data_mode)(func)]; the [logging.info] line has no
    effect on the client. *)
Definition event (name : option string) (data_mode : DataMode) (func : Func)
    (c : Client) : Client :=
  let event_name :=
    match name with
    | Some n => n
    | None => func_name func
    end in
  set_events
    (<[event_name := (wrapper event_name func, data_mode)]> (events c)) c.

(** The [disconnect] coroutine function defined in [__init__]. *)
Definition disconnect : Func :=
  {| func_name := "disconnect"; func_id := 0 |}.

(** [Client.__init__]; [keys] is what
    [AsymmetricEncryptor.read_key_pairs] returns.  The certificate request
    of [generate_csr] plays no part in the transport. *)
Definition Client_init (name : string) (remote_host_address : string * Z)
    (keys : RsaKey * RsaKey) : Client :=
  event None BYTES disconnect
    {| name := name; address := remote_host_address; reader := None;
       writer := None; events := ∅; server_public_key := None;
       client_public_key := fst keys; client_private_key := snd keys;
       encryptor := None |}.

(** *** [Client.is_connected], [send], [send_file], [terminate] *)

Definition is_connected (c : Client) : bool :=
  match reader c with
  | Some _ => true
  | None => false
  end.

(** [self.writer.write(data)] *)
Definition self_writer_write (data : bytes) : M unit :=
  c <- get_self ;; stream_write (writer c) data.

(** [await self.writer.drain()] *)
Definition self_writer_drain : M unit :=
  c <- get_self ;; stream_drain (writer c).

(** Lines 259-263 and 301-306: the signature over a digest, as 2048
    big-endian bytes. *)
Definition write_signature (digest : bytes) : M unit :=
  let hsh := int_from_bytes digest in
  c <- get_self ;;
  d <- or_raise (key_d (client_private_key c)) AttributeError ;;
  let signature := pow hsh d (key_n (client_private_key c)) in
  signature_bytes <- or_raise (to_bytes 2048 signature) OverflowError ;;
  self_writer_write signature_bytes.

(** [iv] is what [SymmetricEncryptor.generate_iv()] draws. *)
Definition send (event : string) (data : bytes) (iv : bytes) : M unit :=
  c <- get_self ;;
  if negb (is_connected c) then raise ConnectionError
  else
    self_writer_write iv ;;;
    encrypted_data <- self_encrypt data iv ;;
    let header := json_dumps event (len encrypted_data) in
    encrypted_header <- self_encrypt header iv ;;
    header_len <- or_raise (to_bytes 8 (len encrypted_header)) OverflowError ;;
    encrypted_len <- self_encrypt header_len iv ;;
    self_writer_write encrypted_len ;;;
    self_writer_write encrypted_header ;;;
    self_writer_write encrypted_data ;;;
    write_signature (sha512 data) ;;;
    self_writer_drain.

(** Lines 275-279: the length [send_file] declares for a file of
    [data_size] bytes. *)
Definition send_file_data_length (data_size : Z) : Z :=
  let padding_len := 16 - data_size mod 16 in
  data_size + padding_len.

(** Lines 289-298: [f] is the part of the file not read yet. *)
Fixpoint send_file_loop (fuel : nat) (f : bytes) (file_hash : HashObj)
    (iv : bytes) : M HashObj :=
  match fuel with
  | O => unfinished
  | S fuel' =>
    let data := take 1024 f in
    let f := drop 1024 f in
    match data with
    | [] => ret file_hash
    | _ =>
      let file_hash := hash_update file_hash data in
      encrypted <- self_encrypt data iv ;;
      self_writer_write encrypted ;;;
      send_file_loop fuel' f file_hash iv
    end
  end.

(** [path] is given by the contents of the file it names; [st_size] is their
    length.  Every iteration but the last reads at least one byte, so
    [len(contents) + 1] iterations are enough. *)
Definition send_file (event : string) (path : bytes) (iv : bytes) : M unit :=
  c <- get_self ;;
  if negb (is_connected c) then raise ConnectionError
  else
    self_writer_write iv ;;;
    let data_size := len path in
    let header := json_dumps event (send_file_data_length data_size) in
    encrypted_header <- self_encrypt header iv ;;
    header_len <- or_raise (to_bytes 8 (len encrypted_header)) OverflowError ;;
    encrypted_len <- self_encrypt header_len iv ;;
    self_writer_write encrypted_len ;;;
    self_writer_write encrypted_header ;;;
    file_hash <- send_file_loop (S (length path)) path hash_new iv ;;
    write_signature (hash_digest file_hash) ;;;
    self_writer_drain.

(** [await wr.wait_closed()].  How the wait ends depends on the transport:
    [outcome] is the exception it raises, if any. *)
Definition stream_wait_closed (wr : option WriterRef)
    (outcome : option Exception) : M unit :=
  match wr with
  | None => raise AttributeError
  | Some writer_ref =>
    match outcome with
    | Some e => raise e
    | None => ret tt
    end
  end.

(** [Client.terminate]; [wait_closed] is how [self.writer.wait_closed()]
    ends, which nothing here catches. *)
Definition terminate (wait_closed : option Exception) : M unit :=
  c <- get_self ;;
  stream_close (writer c) ;;;
  modify_self (set_server_public_key None) ;;;
  c <- get_self ;;
  stream_wait_closed (writer c) wait_closed ;;;
  modify_self (set_writer None) ;;;
  modify_self (set_reader None).

End ClientMethods.

(** The width asked of [to_bytes] is the width obtained. *)
Lemma to_bytes_aux_length (k : nat) (z : Z) (acc : bytes) :
  length (to_bytes_aux k z acc) = (k + length acc)%nat.
Proof.
  revert z acc. induction k as [|k IH]; intros z acc; simpl; [reflexivity|].
  rewrite IH. simpl. lia.
Qed.

(** ** An executable instance of the collaborators

    Small stand-ins with the interfaces above, on which the client can be run
    on concrete streams: a stream that delivers its data in segments, a
    cipher that only pads, a checksum in place of the digest, the header
    codec and a fixed-width key encoding. *)
Module Sim.

(** The segments still to arrive; after the last one the stream is at EOF.
    [read n] returns nothing for [n = 0], everything up to EOF for a
    negative [n], and otherwise at most [n] bytes of the first segment that
    is not empty. *)
Fixpoint seg_read (n : Z) (s : list bytes) : bytes * list bytes :=
  match s with
  | [] => ([], [])
  | seg :: rest =>
    if n =? 0 then ([], s)
    else if n <? 0 then (concat s, [])
    else
      match seg with
      | [] => seg_read n rest
      | _ =>
        (take (Z.to_nat n) seg,
         match drop (Z.to_nat n) seg with
         | [] => rest
         | seg' => seg' :: rest
         end)
      end
  end.

#[export] Instance asyncio : Asyncio :=
  {| StreamReader := list bytes; read := seg_read |}.

Definition pad (data : bytes) : bytes :=
  let k := 16 - len data mod 16 in
  data ++ repeat (byte_of k) (Z.to_nat k).

Definition unpad (data : bytes) : option bytes :=
  match last (map byte_val data) with
  | Some k =>
    if (len data mod 16 =? 0) && (1 <=? k) && (k <=? 16)
    then Some (take (length data - Z.to_nat k) data)
    else None
  | None => None
  end.

#[export] Instance encryptor_module : EncryptorModule :=
  {| sym_encrypt := fun _ data _ => pad data;
     sym_decrypt := fun _ data _ => unpad data;
     asym_encrypt := fun _ data => data |}.

Definition checksum (data : bytes) : bytes :=
  to_bytes_aux 64
    (fold_left (fun acc x => (acc * 31 + byte_val x) mod 32) data 7) [].

Definition ascii_bytes (s : string) : bytes := String.list_byte_of_string s.

Fixpoint digits (fuel : nat) (z : Z) (acc : bytes) : bytes :=
  match fuel with
  | O => acc
  | S fuel' =>
    let acc := byte_of (48 + z mod 10) :: acc in
    if z <? 10 then acc else digits fuel' (z / 10) acc
  end.

Definition quote : Byte.byte := Byte.x22.

(** The opening of the header up to the event name, and what stands between
    the event name and the number. *)
Definition header_open : bytes :=
  ascii_bytes "{" ++ [quote] ++ ascii_bytes "event" ++ [quote]
  ++ ascii_bytes ": " ++ [quote].

Definition header_middle : bytes :=
  [quote] ++ ascii_bytes ", " ++ [quote] ++ ascii_bytes "data_length"
  ++ [quote] ++ ascii_bytes ": ".

Definition dumps (event : string) (data_length : Z) : bytes :=
  header_open ++ ascii_bytes event ++ header_middle
  ++ digits (S (Z.to_nat data_length)) data_length []
  ++ ascii_bytes "}".

Fixpoint strip_prefix (p l : bytes) : option bytes :=
  match p, l with
  | [], _ => Some l
  | x :: p', y :: l' => if Byte.eqb x y then strip_prefix p' l' else None
  | _, [] => None
  end.

Fixpoint span (f : Byte.byte -> bool) (l : bytes) : bytes * bytes :=
  match l with
  | x :: l' =>
    if f x then (x :: fst (span f l'), snd (span f l')) else ([], l)
  | [] => ([], [])
  end.

Definition is_digit (x : Byte.byte) : bool :=
  (48 <=? byte_val x) && (byte_val x <=? 57).

Definition loads (b : bytes) : option (string * Z) :=
  r1 ← strip_prefix header_open b;
  let ev := span (fun x => negb (byte_val x =? 34)) r1 in
  r3 ← strip_prefix header_middle (snd ev);
  let num := span is_digit r3 in
  match fst num, snd num with
  | _ :: _, [x] =>
    if byte_val x =? 125
    then Some (String.string_of_list_byte (fst ev),
               fold_left (fun acc d => acc * 10 + (byte_val d - 48))
                         (fst num) 0)
    else None
  | _, _ => None
  end.

Lemma checksum_length (data : bytes) : length (checksum data) = 64%nat.
Proof. unfold checksum. rewrite to_bytes_aux_length. reflexivity. Qed.

Definition export (k : RsaKey) : bytes :=
  to_bytes_aux 8 (key_n k) [] ++ to_bytes_aux 8 (key_e k) [].

Definition import (b : bytes) : option RsaKey :=
  if len b =? 16
  then Some {| key_n := int_from_bytes (take 8 b);
               key_e := int_from_bytes (drop 8 b); key_d := None |}
  else None.

#[export] Instance pylib : PyLib :=
  {| sha512 := checksum; sha512_length := checksum_length;
     json_dumps := dumps; json_loads := loads;
     import_key := import; export_key := export |}.

(** A key pair small enough to compute with: [n = 3 * 11], and
    [3 * 7 = 21] is 1 modulo [2 * 10]. *)
Definition private_key : RsaKey :=
  {| key_n := 33; key_e := 3; key_d := Some 7 |}.

Definition public_key : RsaKey :=
  {| key_n := 33; key_e := 3; key_d := None |}.

(** A client as it is after a handshake, with no handler registered but the
    constructor's, and the world around a client with [stream] still to
    arrive. *)
Definition connected_client : Client :=
  set_encryptor (Some {| session_key := bytes_of [1; 2; 3; 4] |})
    (set_server_public_key (Some public_key)
      (set_writer (Some writer_ref)
        (set_reader (Some reader_ref)
          (Client_init "alice" ("localhost"%string, 6666)
                       (public_key, private_key))))).

Definition world_of (c : Client) (stream : list bytes) : World :=
  {| self := c; reader_obj := stream;
     writer_obj := {| written := []; closed := false |};
     stdout := []; futures := []; connection_event_set := false |}.

(** What a peer with client state [c] puts on the wire for one [send]. *)
Definition wire_of_send (c : Client) (event : string) (data iv : bytes)
    : bytes :=
  written (writer_obj (snd (send event data iv (world_of c [])))).

End Sim.

(** ** The specification's notions, for comparison with the code *)

(** [s] rounded up to the next multiple of 16, a multiple of 16 staying as
    it is. *)
Definition round_up_16 (s : Z) : Z := 16 * ((s + 15) / 16).

(** The plaintext a payload stands for. *)
Definition payload_plaintext (p : Payload) : bytes :=
  match p with
  | PBytes b => b
  | PFile f => file_data f
  | PNone => []
  end.

(** Trial division, to recognise the small primes used in examples. *)
Definition trial_division (p : Z) : bool :=
  (1 <? p)
  && forallb (fun i => negb (p mod (Z.of_nat i + 2) =? 0))
             (seq 0 (Z.to_nat (p - 2))).

(** The handlers registered on a client, in order. *)
Definition register_all (regs : list (option string * DataMode * Func))
    (c : Client) : Client :=
  fold_left (fun c r => event (fst (fst r)) (snd (fst r)) (snd r) c) regs c.

(** * Properties *)

(** ** Arithmetic of the signature *)

Section Signature.

Lemma trial_division_prime (p : Z) : trial_division p = true -> Z.prime p.
Proof.
  unfold trial_division. intros Hp.
  apply andb_prop in Hp as [H1 Hall]. apply Z.ltb_lt in H1.
  split; [exact H1|]. intros k Hk [c Hc].
  rewrite forallb_forall in Hall.
  specialize (Hall (Z.to_nat (k - 2))).
  assert (Hin : In (Z.to_nat (k - 2)) (seq 0 (Z.to_nat (p - 2)))).
  { apply in_seq. lia. }
  apply Hall in Hin. replace (Z.of_nat (Z.to_nat (k - 2)) + 2) with k in Hin by lia.
  apply negb_true_iff, Z.eqb_neq in Hin. apply Hin.
  rewrite Hc. apply Z.mod_mul. lia.
Qed.

(** Fermat's little theorem, for an exponent that is 1 modulo [p - 1]. *)
Lemma pow_one_mod_pred_prime (p m k : Z) :
  Z.prime p -> 0 <= k -> (m ^ (1 + k * (p - 1))) mod p = m mod p.
Proof.
  intros Hp Hk. pose proof (Z.prime_ge_2 _ Hp) as Hp2.
  destruct (Z.eq_dec (m mod p) 0) as [Hz|Hnz].
  - rewrite <- Z.mod_pow_l, Hz, Z.pow_0_l by nia. reflexivity.
  - rewrite Z.pow_add_r by nia. rewrite Z.pow_1_r.
    rewrite (Z.mul_comm k), Z.pow_mul_r by lia.
    rewrite Z.mul_mod by lia.
    rewrite <- (Z.mod_pow_l (m ^ (p - 1))), (Z.fermat_nz p m Hp Hnz).
    rewrite Z.pow_1_l by lia. rewrite (Z.mod_small 1) by lia.
    rewrite Z.mul_1_r. apply Z.mod_mod. lia.
Qed.

Lemma divide_prime_product (p q x : Z) :
  Z.prime p -> Z.prime q -> p <> q -> (p | x) -> (q | x) -> (p * q | x).
Proof.
  intros Hp Hq Hne [a Ha] Hqx. subst x.
  apply (Z.divide_prime_mul a p q Hq) in Hqx as [Hqa|Hqp].
  - destruct Hqa as [b Hb]. exists b. subst a. ring.
  - exfalso. apply Hne. symmetry.
    apply (Z.divide_prime_prime q p); assumption.
Qed.

(** The RSA identity: raising to [e * d] is the identity modulo [p * q]. *)
Lemma pow_ed_mod (p q e d m : Z) :
  Z.prime p -> Z.prime q -> p <> q -> 0 <= e -> 0 <= d ->
  (e * d) mod ((p - 1) * (q - 1)) = 1 ->
  (m ^ (e * d)) mod (p * q) = m mod (p * q).
Proof.
  intros Hp Hq Hne He Hd Hed.
  pose proof (Z.prime_ge_2 _ Hp) as Hp2. pose proof (Z.prime_ge_2 _ Hq) as Hq2.
  assert (Hphi : 0 < (p - 1) * (q - 1)) by nia.
  pose proof (Z.div_mod (e * d) ((p - 1) * (q - 1)) ltac:(lia)) as Hdm.
  rewrite Hed in Hdm.
  set (j := e * d / ((p - 1) * (q - 1))) in *.
  assert (Hj : 0 <= j) by (apply Z.div_pos; nia).
  assert (Hmp : (m ^ (e * d)) mod p = m mod p).
  { replace (e * d) with (1 + (j * (q - 1)) * (p - 1)) by lia.
    apply pow_one_mod_pred_prime; [assumption | nia]. }
  assert (Hmq : (m ^ (e * d)) mod q = m mod q).
  { replace (e * d) with (1 + (j * (p - 1)) * (q - 1)) by lia.
    apply pow_one_mod_pred_prime; [assumption | nia]. }
  assert (Hdiv : (p * q | m ^ (e * d) - m)).
  { apply divide_prime_product; try assumption.
    - apply Z.mod_divide; [lia|]. rewrite Zminus_mod, Hmp, Z.sub_diag.
      apply Z.mod_0_l. lia.
    - apply Z.mod_divide; [lia|]. rewrite Zminus_mod, Hmq, Z.sub_diag.
      apply Z.mod_0_l. lia. }
  destruct Hdiv as [c Hc].
  replace (m ^ (e * d)) with (m + c * (p * q)) by lia.
  apply Z_mod_plus_full.
Qed.

Lemma int_from_bytes_app (a b : bytes) :
  int_from_bytes (a ++ b)
  = int_from_bytes a * 256 ^ len b + int_from_bytes b.
Proof.
  unfold int_from_bytes, len. rewrite fold_left_app.
  generalize (fold_left (fun acc x => acc * 256 + byte_val x) a 0).
  induction b as [|x b IH] using rev_ind; intros z.
  - simpl. lia.
  - rewrite !fold_left_app. simpl. rewrite IH.
    rewrite length_app. simpl length.
    rewrite Nat2Z.inj_add, Z.pow_add_r by lia. simpl (Z.of_nat 1).
    rewrite Z.pow_1_r. ring.
Qed.

Lemma byte_val_range (x : Byte.byte) : 0 <= byte_val x < 256.
Proof.
  unfold byte_val. pose proof (Byte.to_N_bounded x) as Hb.
  lia.
Qed.

Lemma int_from_bytes_range (b : bytes) :
  0 <= int_from_bytes b < 256 ^ len b.
Proof.
  induction b as [|x b IH] using rev_ind.
  - unfold int_from_bytes, len. simpl. lia.
  - rewrite int_from_bytes_app. unfold len in *. rewrite length_app.
    simpl length. rewrite Nat2Z.inj_add, Z.pow_add_r by lia.
    change (int_from_bytes [x]) with (0 * 256 + byte_val x).
    pose proof (byte_val_range x). simpl (Z.of_nat 1).
    rewrite !Z.pow_1_r. nia.
Qed.

Lemma byte_val_byte_of (z : Z) : byte_val (byte_of z) = z mod 256.
Proof.
  unfold byte_val, byte_of.
  pose proof (Z.mod_pos_bound z 256 ltac:(lia)) as Hb.
  destruct (Byte.of_N (Z.to_N (z mod 256))) as [b|] eqn:Hof.
  - apply Byte.to_of_N in Hof. rewrite Hof. lia.
  - exfalso. pose proof (Byte.of_N_None_iff (Z.to_N (z mod 256))) as Hn.
    apply Hn in Hof. lia.
Qed.

Lemma int_from_bytes_cons (x : Byte.byte) (b : bytes) :
  int_from_bytes (x :: b) = byte_val x * 256 ^ len b + int_from_bytes b.
Proof.
  change (x :: b) with ([x] ++ b). rewrite int_from_bytes_app.
  reflexivity.
Qed.

Lemma int_from_bytes_to_bytes_aux (k : nat) : forall z acc,
  0 <= z ->
  int_from_bytes (to_bytes_aux k z acc)
  = (z mod 256 ^ Z.of_nat k) * 256 ^ len acc + int_from_bytes acc.
Proof.
  induction k as [|k IH]; intros z acc Hz.
  - simpl. rewrite Z.mod_1_r. lia.
  - cbn [to_bytes_aux]. rewrite IH by (apply Z.div_pos; lia).
    rewrite int_from_bytes_cons, byte_val_byte_of.
    unfold len. cbn [length]. rewrite !Nat2Z.inj_succ, !Z.pow_succ_r by lia.
    rewrite (Z.rem_mul_r z 256 (256 ^ Z.of_nat k)) by lia. ring.
Qed.

(** The integer is read back from the bytes [to_bytes] gives. *)
Lemma int_from_bytes_to_bytes (k : nat) (z : Z) (b : bytes) :
  to_bytes k z = Some b -> int_from_bytes b = z.
Proof.
  unfold to_bytes, bit_length.
  destruct (0 <=? z) eqn:Hz; [|discriminate]. apply Z.leb_le in Hz.
  destruct (z =? 0) eqn:Hz0; cbn [andb].
  - apply Z.eqb_eq in Hz0. subst z. destruct (_ <=? _); [|discriminate].
    intros Hb. inversion Hb. rewrite int_from_bytes_to_bytes_aux by lia.
    rewrite Z.mod_0_l by lia. reflexivity.
  - apply Z.eqb_neq in Hz0.
    destruct (_ <=? _) eqn:Hbits; [|discriminate]. apply Z.leb_le in Hbits.
    intros Hb. inversion Hb. rewrite int_from_bytes_to_bytes_aux by lia.
    change (len []) with 0. rewrite Z.pow_0_r, Z.mul_1_r.
    change (int_from_bytes []) with 0. rewrite Z.add_0_r.
    apply Z.mod_small. split; [lia|].
    rewrite Z.abs_eq in Hbits by lia.
    change 256 with (2 ^ 8). rewrite <- Z.pow_mul_r by lia.
    apply Z.log2_lt_pow2; lia.
Qed.

End Signature.

(** ** Reasoning about method bodies *)

Section Bodies.
Context `{Asyncio} `{EncryptorModule} `{PyLib}.

Lemma bind_returned {A B} (m : M A) (k : A -> M B) w b w' :
  bind m k w = (Returned b, w') ->
  exists a w1, m w = (Returned a, w1) /\ k a w1 = (Returned b, w').
Proof.
  unfold bind. destruct (m w) as [[a| |] w1]; intros Hk; try discriminate.
  exists a, w1. split; [reflexivity | exact Hk].
Qed.

Lemma bind_run {A B} (m : M A) (k : A -> M B) w a w1 :
  m w = (Returned a, w1) -> bind m k w = k a w1.
Proof. unfold bind. intros ->. reflexivity. Qed.

Lemma bind_raised {A B} (m : M A) (k : A -> M B) w e w1 :
  m w = (Raised e, w1) -> bind m k w = (Raised e, w1).
Proof. unfold bind. intros ->. reflexivity. Qed.

Lemma or_raise_returned {A} (o : option A) e w a w' :
  or_raise o e w = (Returned a, w') -> o = Some a /\ w' = w.
Proof.
  destruct o; unfold or_raise, ret, raise; intros Ho; inversion Ho; auto.
Qed.

Lemma get_self_returned w c w' :
  get_self w = (Returned c, w') -> c = self w /\ w' = w.
Proof. unfold get_self. intros Ho; inversion Ho; auto. Qed.

(** What a call put on the wire, everything else staying as it was. *)
Definition wrote (w w' : World) (b : bytes) : Prop :=
  self w' = self w /\ reader_obj w' = reader_obj w
  /\ written (writer_obj w') = written (writer_obj w) ++ b
  /\ closed (writer_obj w') = closed (writer_obj w)
  /\ stdout w' = stdout w /\ futures w' = futures w
  /\ connection_event_set w' = connection_event_set w.

Lemma wrote_nil w : wrote w w [].
Proof. unfold wrote. rewrite app_nil_r. repeat split. Qed.

Lemma wrote_app w1 w2 w3 a b :
  wrote w1 w2 a -> wrote w2 w3 b -> wrote w1 w3 (a ++ b).
Proof.
  unfold wrote. intros (?&?&Ha&?&?&?&?) (?&?&Hb&?&?&?&?).
  rewrite Hb, Ha, app_assoc. repeat split; congruence.
Qed.

Lemma self_writer_write_returned data w u w' :
  self_writer_write data w = (Returned u, w') -> wrote w w' data.
Proof.
  unfold self_writer_write, bind, get_self, stream_write.
  destruct (writer (self w)) as [[]|]; intros Ho; inversion Ho; subst.
  unfold wrote. simpl. repeat split.
Qed.

Lemma self_writer_write_run data w :
  writer (self w) = Some writer_ref ->
  exists w', self_writer_write data w = (Returned tt, w') /\ wrote w w' data.
Proof.
  intros Hw. unfold self_writer_write, bind, get_self, stream_write.
  rewrite Hw. eexists. split; [reflexivity|].
  unfold wrote. simpl. repeat split.
Qed.

Lemma self_writer_drain_returned w u w' :
  self_writer_drain w = (Returned u, w') -> w' = w.
Proof.
  unfold self_writer_drain, bind, get_self, stream_drain.
  destruct (writer (self w)) as [[]|]; intros Ho; inversion Ho; reflexivity.
Qed.

Lemma self_encrypt_returned data iv w c w' :
  self_encrypt data iv w = (Returned c, w') ->
  w' = w /\ exists enc, encryptor (self w) = Some enc
                        /\ c = sym_encrypt (session_key enc) data iv.
Proof.
  unfold self_encrypt, bind, get_self, or_raise, ret, raise.
  destruct (encryptor (self w)) as [enc|]; intros Ho; inversion Ho; subst.
  split; [reflexivity|]. exists enc. auto.
Qed.

Lemma to_bytes_length (k : nat) (z : Z) (b : bytes) :
  to_bytes k z = Some b -> length b = k.
Proof.
  unfold to_bytes. destruct (_ && _); intros Hb; inversion Hb.
  rewrite to_bytes_aux_length. simpl. lia.
Qed.

Lemma write_signature_returned digest w u w' :
  write_signature digest w = (Returned u, w') ->
  exists d signature,
    key_d (client_private_key (self w)) = Some d
    /\ to_bytes 2048
         (pow (int_from_bytes digest) d (key_n (client_private_key (self w))))
       = Some signature
    /\ wrote w w' signature.
Proof.
  unfold write_signature. intros Hr.
  apply bind_returned in Hr as (c & w1 & Hc & Hr).
  apply get_self_returned in Hc as [-> ->].
  apply bind_returned in Hr as (d & w1 & Hd & Hr).
  apply or_raise_returned in Hd as [Hd ->].
  apply bind_returned in Hr as (sg & w1 & Hs & Hr).
  apply or_raise_returned in Hs as [Hs ->].
  apply self_writer_write_returned in Hr.
  exists d, sg. auto.
Qed.

(** The file loop feeds the whole file to the hash object. *)
Lemma send_file_loop_returned fuel : forall f file_hash iv w h' w',
  send_file_loop fuel f file_hash iv w = (Returned h', w') ->
  fed h' = fed file_hash ++ f /\ exists cipher, wrote w w' cipher.
Proof.
  induction fuel as [|fuel IH]; intros f file_hash iv w h' w' Hr.
  - discriminate.
  - simpl in Hr. destruct (take 1024 f) as [|x data] eqn:Htake.
    + inversion Hr; subst. split.
      * destruct f; [rewrite app_nil_r; reflexivity | discriminate].
      * exists []. apply wrote_nil.
    + apply bind_returned in Hr as (c & w1 & Hc & Hr).
      apply self_encrypt_returned in Hc as [-> _].
      apply bind_returned in Hr as (u & w1 & Hw & Hr).
      apply self_writer_write_returned in Hw.
      apply IH in Hr as [Hfed [cipher Hwr]]. split.
      * rewrite Hfed. simpl. rewrite <- Htake, <- app_assoc, take_drop.
        reflexivity.
      * exists (c ++ cipher). eapply wrote_app; eassumption.
Qed.

(** A body that comes to an end, by returning or raising, in every world. *)
Definition finishes {A} (m : M A) : Prop :=
  forall w, fst (m w) <> Unfinished.

Lemma finishes_bind {A B} (m : M A) (k : A -> M B) :
  finishes m -> (forall a, finishes (k a)) -> finishes (bind m k).
Proof.
  intros Hm Hk w. unfold bind. specialize (Hm w).
  destruct (m w) as [[a| |] w1]; simpl in *;
    [apply Hk | discriminate | congruence].
Qed.

Lemma finishes_ret {A} (a : A) : finishes (ret a).
Proof. intros w. discriminate. Qed.

Lemma finishes_raise {A} e : finishes (@raise _ A e).
Proof. intros w. discriminate. Qed.

Lemma finishes_or_raise {A} (o : option A) e : finishes (or_raise o e).
Proof. intros w. destruct o; discriminate. Qed.

Lemma finishes_get_self : finishes get_self.
Proof. intros w. discriminate. Qed.

Lemma finishes_modify_self f : finishes (modify_self f).
Proof. intros w. discriminate. Qed.

Lemma finishes_stream_read r n : finishes (stream_read r n).
Proof. intros w. destruct r as [[]|]; discriminate. Qed.

Lemma finishes_stream_write wr data : finishes (stream_write wr data).
Proof. intros w. destruct wr as [[]|]; discriminate. Qed.

Lemma finishes_stream_drain wr : finishes (stream_drain wr).
Proof. intros w. destruct wr as [[]|]; discriminate. Qed.

Lemma finishes_stream_close wr : finishes (stream_close wr).
Proof. intros w. destruct wr as [[]|]; discriminate. Qed.

Lemma finishes_print s : finishes (print s).
Proof. intros w. discriminate. Qed.

Lemma finishes_ensure_future t : finishes (ensure_future t).
Proof. intros w. discriminate. Qed.

Lemma finishes_if {A} (b : bool) (m1 m2 : M A) :
  finishes m1 -> finishes m2 -> finishes (if b then m1 else m2).
Proof. destruct b; auto. Qed.

Create HintDb finishes.

#[local] Hint Resolve finishes_ret finishes_raise finishes_or_raise
  finishes_get_self finishes_modify_self finishes_stream_read
  finishes_stream_write finishes_stream_drain finishes_stream_close
  finishes_print
  finishes_ensure_future : finishes.

Ltac finishes_step :=
  repeat first
    [ apply finishes_bind; [ | intros ? ]
    | apply finishes_if
    | solve [ auto with finishes ] ].

Lemma finishes_self_writer_write data : finishes (self_writer_write data).
Proof. unfold self_writer_write. finishes_step. Qed.

Lemma finishes_self_writer_drain : finishes self_writer_drain.
Proof. unfold self_writer_drain. finishes_step. Qed.

Lemma finishes_self_encrypt data iv : finishes (self_encrypt data iv).
Proof. unfold self_encrypt. finishes_step. Qed.

Lemma finishes_self_decrypt data iv : finishes (self_decrypt data iv).
Proof. unfold self_decrypt. finishes_step. Qed.

Lemma finishes_self_reader_read n : finishes (self_reader_read n).
Proof. unfold self_reader_read. finishes_step. Qed.

#[local] Hint Resolve finishes_self_writer_write finishes_self_encrypt
  finishes_self_decrypt finishes_self_reader_read : finishes.

Lemma finishes_write_signature digest : finishes (write_signature digest).
Proof. unfold write_signature. finishes_step. Qed.

(** With more iterations allowed than the file has bytes, the file loop comes
    to its end. *)
Lemma send_file_loop_finishes fuel : forall f file_hash iv w,
  (length f < fuel)%nat ->
  fst (send_file_loop fuel f file_hash iv w) <> Unfinished.
Proof.
  induction fuel as [|fuel IH]; intros f file_hash iv w Hlen; [lia|].
  simpl. destruct (take 1024 f) as [|x data] eqn:Htake; [discriminate|].
  revert w. apply finishes_bind; [auto with finishes|]. intros c.
  apply finishes_bind; [auto with finishes|]. intros _ w.
  apply IH. rewrite length_drop. destruct f; [discriminate|].
  simpl in *. lia.
Qed.

(** The same for the chunk loop of [write_to_file]: each iteration takes at
    least one byte off [remaining]. *)
Lemma write_to_file_loop_finishes fuel : forall file reader remaining iv h w,
  remaining <= Z.of_nat fuel ->
  fst (write_to_file_loop fuel file reader remaining iv h w) <> Unfinished.
Proof.
  induction fuel as [|fuel IH]; intros file reader remaining iv h w Hrem.
  - simpl. destruct (remaining >? 0) eqn:Hpos; [lia | discriminate].
  - simpl. destruct (remaining >? 0) eqn:Hpos; [|discriminate].
    revert w. apply finishes_bind; [auto with finishes|]. intros ed.
    apply finishes_if; [auto with finishes|].
    apply finishes_bind; [auto with finishes|]. intros data w.
    apply IH. unfold CHUNK. lia.
Qed.

Lemma finishes_write_to_file file reader data_len iv :
  finishes (write_to_file file reader data_len iv).
Proof.
  intros w. unfold write_to_file. apply write_to_file_loop_finishes. lia.
Qed.

End Bodies.

(** ** Outbound frames *)

Section Outbound.
Context `{Asyncio} `{EncryptorModule} `{PyLib}.

(** The frame [send] writes: IV, encrypted header length, encrypted header,
    encrypted payload, and the signature of the plaintext digest. *)
Lemma send_returned event data iv w w' :
  send event data iv w = (Returned tt, w') ->
  exists enc header_len d signature,
    encryptor (self w) = Some enc
    /\ key_d (client_private_key (self w)) = Some d
    /\ to_bytes 2048
         (pow (int_from_bytes (sha512 data)) d
              (key_n (client_private_key (self w)))) = Some signature
    /\ let k := session_key enc in
       let encrypted_data := sym_encrypt k data iv in
       let encrypted_header :=
         sym_encrypt k (json_dumps event (len encrypted_data)) iv in
       to_bytes 8 (len encrypted_header) = Some header_len
       /\ wrote w w'
            (iv ++ sym_encrypt k header_len iv ++ encrypted_header
                ++ encrypted_data ++ signature).
Proof.
  unfold send. intros Hr.
  apply bind_returned in Hr as (c & w1 & Hc & Hr).
  apply get_self_returned in Hc as [-> ->].
  destruct (is_connected (self w)); cbn [negb] in Hr; [|discriminate].
  apply bind_returned in Hr as (u1 & w1 & Hiv & Hr).
  apply self_writer_write_returned in Hiv.
  apply bind_returned in Hr as (ed & w2 & Hed & Hr).
  apply self_encrypt_returned in Hed as [-> (enc & Henc & ->)].
  apply bind_returned in Hr as (eh & w2 & Heh & Hr).
  apply self_encrypt_returned in Heh as [-> (enc' & Henc' & ->)].
  apply bind_returned in Hr as (hl & w2 & Hhl & Hr).
  apply or_raise_returned in Hhl as [Hhl ->].
  apply bind_returned in Hr as (el & w2 & Hel & Hr).
  apply self_encrypt_returned in Hel as [-> (enc'' & Henc'' & ->)].
  apply bind_returned in Hr as (u2 & w2 & Hw2 & Hr).
  apply self_writer_write_returned in Hw2.
  apply bind_returned in Hr as (u3 & w3 & Hw3 & Hr).
  apply self_writer_write_returned in Hw3.
  apply bind_returned in Hr as (u4 & w4 & Hw4 & Hr).
  apply self_writer_write_returned in Hw4.
  apply bind_returned in Hr as (u5 & w5 & Hsig & Hr).
  apply self_writer_drain_returned in Hr as ->.
  apply write_signature_returned in Hsig as (d & sg & Hd & Hsg & Hw5).
  assert (Hself1 : self w1 = self w) by apply Hiv.
  assert (Hself2 : self w2 = self w) by (destruct Hw2 as [-> _]; exact Hself1).
  assert (Hself3 : self w3 = self w) by (destruct Hw3 as [-> _]; exact Hself2).
  assert (Hself4 : self w4 = self w) by (destruct Hw4 as [-> _]; exact Hself3).
  rewrite Hself1 in Henc, Henc', Henc''. rewrite Hself4 in Hd, Hsg.
  assert (enc' = enc) by congruence. assert (enc'' = enc) by congruence.
  subst enc' enc''.
  exists enc, hl, d, sg. do 3 (split; [assumption|]). cbv zeta.
  split; [assumption|].
  eapply wrote_app; [exact Hiv|]. eapply wrote_app; [exact Hw2|].
  eapply wrote_app; [exact Hw3|]. eapply wrote_app; [exact Hw4|]. exact Hw5.
Qed.

(** The frame [send_file] writes: the header declares
    [send_file_data_length] of the file size, and the signature is over the
    digest of the file contents. *)
Lemma send_file_returned event path iv w w' :
  send_file event path iv w = (Returned tt, w') ->
  exists enc header_len cipher d signature,
    encryptor (self w) = Some enc
    /\ key_d (client_private_key (self w)) = Some d
    /\ to_bytes 2048
         (pow (int_from_bytes (sha512 path)) d
              (key_n (client_private_key (self w)))) = Some signature
    /\ let k := session_key enc in
       let encrypted_header :=
         sym_encrypt k
           (json_dumps event (send_file_data_length (len path))) iv in
       to_bytes 8 (len encrypted_header) = Some header_len
       /\ wrote w w'
            (iv ++ sym_encrypt k header_len iv ++ encrypted_header
                ++ cipher ++ signature).
Proof.
  unfold send_file. intros Hr.
  apply bind_returned in Hr as (c & w1 & Hc & Hr).
  apply get_self_returned in Hc as [-> ->].
  destruct (is_connected (self w)); cbn [negb] in Hr; [|discriminate].
  apply bind_returned in Hr as (u1 & w1 & Hiv & Hr).
  apply self_writer_write_returned in Hiv.
  apply bind_returned in Hr as (eh & w2 & Heh & Hr).
  apply self_encrypt_returned in Heh as [-> (enc & Henc & ->)].
  apply bind_returned in Hr as (hl & w2 & Hhl & Hr).
  apply or_raise_returned in Hhl as [Hhl ->].
  apply bind_returned in Hr as (el & w2 & Hel & Hr).
  apply self_encrypt_returned in Hel as [-> (enc' & Henc' & ->)].
  apply bind_returned in Hr as (u2 & w2 & Hw2 & Hr).
  apply self_writer_write_returned in Hw2.
  apply bind_returned in Hr as (u3 & w3 & Hw3 & Hr).
  apply self_writer_write_returned in Hw3.
  apply bind_returned in Hr as (fh & w4 & Hloop & Hr).
  apply send_file_loop_returned in Hloop as [Hfed [cipher Hw4]].
  apply bind_returned in Hr as (u5 & w5 & Hsig & Hr).
  apply self_writer_drain_returned in Hr as ->.
  apply write_signature_returned in Hsig as (d & sg & Hd & Hsg & Hw5).
  assert (Hself1 : self w1 = self w) by apply Hiv.
  assert (Hself2 : self w2 = self w) by (destruct Hw2 as [-> _]; exact Hself1).
  assert (Hself3 : self w3 = self w) by (destruct Hw3 as [-> _]; exact Hself2).
  assert (Hself4 : self w4 = self w) by (destruct Hw4 as [-> _]; exact Hself3).
  rewrite Hself1 in Henc, Henc'. rewrite Hself4 in Hd, Hsg.
  assert (enc' = enc) by congruence. subst enc'.
  unfold hash_digest in Hsg. rewrite Hfed in Hsg. simpl in Hsg.
  exists enc, hl, cipher, d, sg. do 3 (split; [assumption|]). cbv zeta.
  split; [assumption|].
  eapply wrote_app; [exact Hiv|]. eapply wrote_app; [exact Hw2|].
  eapply wrote_app; [exact Hw3|]. eapply wrote_app; [exact Hw4|]. exact Hw5.
Qed.

Lemma send_file_finishes event path iv : finishes (send_file event path iv).
Proof.
  unfold send_file.
  apply finishes_bind; [apply finishes_get_self|]. intros c.
  apply finishes_if; [apply finishes_raise|].
  apply finishes_bind; [apply finishes_self_writer_write|]. intros _.
  apply finishes_bind; [apply finishes_self_encrypt|]. intros eh.
  apply finishes_bind; [apply finishes_or_raise|]. intros hl.
  apply finishes_bind; [apply finishes_self_encrypt|]. intros el.
  apply finishes_bind; [apply finishes_self_writer_write|]. intros _.
  apply finishes_bind; [apply finishes_self_writer_write|]. intros _.
  apply finishes_bind.
  { intros w. apply send_file_loop_finishes. lia. }
  intros fh. apply finishes_bind; [apply finishes_write_signature|].
  intros _. apply finishes_self_writer_drain.
Qed.

End Outbound.

(** ** Claims on the signature and on outbound frames *)

Section OutboundClaims.
Context `{Asyncio} `{EncryptorModule} `{PyLib}.

(** C4 (as amended).  The [data_length] that [send_file] puts in the frame
    header for a file of [data_size] bytes is
    [data_size + (16 - data_size mod 16)]: the least multiple of 16 strictly
    above [data_size].  For a size that is not a multiple of 16 this is the
    size rounded up to the next multiple of 16; for a size that is one a
    whole block of 16 is added. *)
Theorem C4_declared_length_strictly_above (event : string)
    (path iv : bytes) (w : World) :
  let data_size := len path in
  let data_length := send_file_data_length data_size in
  (forall w', send_file event path iv w = (Returned tt, w') ->
     exists enc header_len rest,
       encryptor (self w) = Some enc
       /\ written (writer_obj w')
          = written (writer_obj w) ++ iv
            ++ sym_encrypt (session_key enc) header_len iv
            ++ sym_encrypt (session_key enc) (json_dumps event data_length) iv
            ++ rest)
  /\ data_length = 16 * (data_size / 16 + 1)
  /\ data_length mod 16 = 0
  /\ data_size < data_length <= data_size + 16
  /\ data_length
     = if data_size mod 16 =? 0 then data_size + 16
       else round_up_16 data_size.
Proof.
  intros data_size data_length.
  assert (Hform : data_length = 16 * (data_size / 16 + 1)).
  { unfold data_length, send_file_data_length.
    pose proof (Z.div_mod data_size 16 ltac:(lia)). lia. }
  split.
  { intros w' Hr.
    apply send_file_returned in Hr
      as (enc & hl & cipher & d & sg & Henc & _ & _ & _ & Hw).
    exists enc, hl, (cipher ++ sg). split; [exact Henc|].
    destruct Hw as (_ & _ & Hwr & _). exact Hwr. }
  split; [exact Hform|]. split.
  { rewrite Hform, Z.mul_comm. apply Z_mod_mult. }
  split.
  { unfold data_length, send_file_data_length.
    pose proof (Z.mod_pos_bound data_size 16 ltac:(lia)). lia. }
  unfold data_length, send_file_data_length, round_up_16.
  destruct (data_size mod 16 =? 0) eqn:Hm.
  - apply Z.eqb_eq in Hm. lia.
  - apply Z.eqb_neq in Hm.
    pose proof (Z.mod_pos_bound data_size 16 ltac:(lia)).
    pose proof (Z.div_mod data_size 16 ltac:(lia)).
    assert ((data_size + 15) / 16 = data_size / 16 + 1); [|lia].
    symmetry. apply (Z.div_unique _ _ _ (data_size mod 16 - 1)); lia.
Qed.

(** C5.  For an RSA key pair, with [n = p * q] for distinct primes and [d],
    [e] inverse of each other modulo the order [(p - 1) * (q - 1)] of the
    group, verification recovers every signed digest below the modulus:
    [pow(pow(digest, d, n), e, n) = digest].  Every SHA-512 digest is below
    a modulus of at least 512 bits, so it is recovered as well. *)
Theorem C5_verify_recovers_signed_digest (p q e d : Z) :
  Z.prime p -> Z.prime q -> p <> q -> 0 <= e -> 0 <= d ->
  (e * d) mod ((p - 1) * (q - 1)) = 1 ->
  (forall digest, 0 <= digest < p * q ->
     pow (pow digest d (p * q)) e (p * q) = digest)
  /\ (2 ^ 512 <= p * q -> forall data,
        pow (pow (int_from_bytes (sha512 data)) d (p * q)) e (p * q)
        = int_from_bytes (sha512 data)).
Proof.
  intros Hp Hq Hne He Hd Hed.
  assert (Hround : forall digest, 0 <= digest < p * q ->
            pow (pow digest d (p * q)) e (p * q) = digest).
  { intros m Hm. unfold pow.
    rewrite Z.mod_pow_l, <- Z.pow_mul_r, (Z.mul_comm d e) by assumption.
    rewrite (pow_ed_mod p q e d m) by assumption.
    apply Z.mod_small. exact Hm. }
  split; [exact Hround|]. intros Hbig data. apply Hround.
  pose proof (int_from_bytes_range (sha512 data)) as Hr.
  unfold len in Hr. rewrite sha512_length in Hr.
  change (256 ^ Z.of_nat 64) with (2 ^ 512) in Hr. lia.
Qed.

(** C8.  In every frame that [send] or [send_file] puts on the wire, the
    last 2048 bytes are the big-endian encoding of the signature
    [pow(h, d, n)] of the SHA-512 digest [h] of the plaintext: the bytes
    given to [send], the contents of the file given to [send_file].  What
    precedes them is the encrypted frame; no ciphertext enters the
    signature.  [send_file] always comes to the end of its file loop. *)
Theorem C8_signature_over_plaintext (event : string) (data path iv : bytes)
    (w : World) :
  (forall w', send event data iv w = (Returned tt, w') ->
     exists d frame signature,
       key_d (client_private_key (self w)) = Some d
       /\ to_bytes 2048
            (pow (int_from_bytes (sha512 data)) d
                 (key_n (client_private_key (self w)))) = Some signature
       /\ length signature = 2048%nat
       /\ int_from_bytes signature
          = pow (int_from_bytes (sha512 data)) d
                (key_n (client_private_key (self w)))
       /\ written (writer_obj w')
          = written (writer_obj w) ++ frame ++ signature)
  /\ (forall w', send_file event path iv w = (Returned tt, w') ->
     exists d frame signature,
       key_d (client_private_key (self w)) = Some d
       /\ to_bytes 2048
            (pow (int_from_bytes (sha512 path)) d
                 (key_n (client_private_key (self w)))) = Some signature
       /\ length signature = 2048%nat
       /\ int_from_bytes signature
          = pow (int_from_bytes (sha512 path)) d
                (key_n (client_private_key (self w)))
       /\ written (writer_obj w')
          = written (writer_obj w) ++ frame ++ signature)
  /\ fst (send_file event path iv w) <> Unfinished.
Proof.
  split; [|split].
  - intros w' Hr.
    apply send_returned in Hr
      as (enc & hl & d & sg & _ & Hd & Hsg & _ & Hw).
    pose proof (to_bytes_length _ _ _ Hsg) as Hlen.
    pose proof (int_from_bytes_to_bytes _ _ _ Hsg) as Hint.
    destruct Hw as (_ & _ & Hwr & _).
    match type of Hwr with
    | _ = _ ++ ?i ++ ?x ++ ?y ++ ?z ++ _ => exists d, (i ++ x ++ y ++ z), sg
    end.
    split; [exact Hd|]. split; [exact Hsg|]. split; [exact Hlen|].
    split; [exact Hint|].
    rewrite Hwr, <- !app_assoc. reflexivity.
  - intros w' Hr.
    apply send_file_returned in Hr
      as (enc & hl & cipher & d & sg & _ & Hd & Hsg & _ & Hw).
    pose proof (to_bytes_length _ _ _ Hsg) as Hlen.
    pose proof (int_from_bytes_to_bytes _ _ _ Hsg) as Hint.
    destruct Hw as (_ & _ & Hwr & _).
    match type of Hwr with
    | _ = _ ++ ?i ++ ?x ++ ?y ++ ?z ++ _ => exists d, (i ++ x ++ y ++ z), sg
    end.
    split; [exact Hd|]. split; [exact Hsg|]. split; [exact Hlen|].
    split; [exact Hint|].
    rewrite Hwr, <- !app_assoc. reflexivity.
  - apply send_file_finishes.
Qed.

End OutboundClaims.

(** C4, at a file of 16 bytes: the header declares 32, not 16. *)
Lemma C4_counterexample_size_16 :
  send_file_data_length 16 <> round_up_16 16
  /\ send_file_data_length 16 <> 16.
Proof. split; vm_compute; discriminate. Qed.

(** ** The registration table and the dispatch wrapper *)

Section Registration.
Context `{Asyncio}.

Lemma event_entry name data_mode func c :
  let event_name := default (func_name func) name in
  events (event name data_mode func c) !! event_name
  = Some (wrapper event_name func, data_mode).
Proof.
  destruct name; simpl; unfold event, set_events; simpl;
    apply lookup_insert_eq.
Qed.

Lemma event_keeps name data_mode func c (k : string) :
  is_Some (events c !! k) ->
  is_Some (events (event name data_mode func c) !! k).
Proof.
  intros Hk. unfold event, set_events. simpl.
  rewrite lookup_insert. case_decide; [eexists; reflexivity | exact Hk].
Qed.

Lemma register_all_keeps regs : forall c (k : string),
  is_Some (events c !! k) -> is_Some (events (register_all regs c) !! k).
Proof.
  unfold register_all.
  induction regs as [|r regs IH]; intros c k Hk; simpl; [exact Hk|].
  apply IH. apply event_keeps. exact Hk.
Qed.

(** C10.  A client that was constructed has an entry for ['disconnect'] in
    its registration table whatever handlers are registered afterwards: the
    constructor registers one, and a registration keeps every entry that is
    there.  So the lookup on the [ConnectionError] path succeeds and the
    handler is scheduled. *)
Theorem C10_disconnect_always_registered (name : string)
    (remote_host_address : string * Z) (keys : RsaKey * RsaKey)
    (regs : list (option string * DataMode * Func)) :
  let c := register_all regs (Client_init name remote_host_address keys) in
  is_Some (events c !! "disconnect"%string)
  /\ (forall n m f (k : string),
        is_Some (events c !! k) -> is_Some (events (event n m f c) !! k))
  /\ (forall w, self w = c ->
        exists w', on_connection_error w = (Returned tt, w')).
Proof.
  intros c.
  assert (Hd : is_Some (events c !! "disconnect"%string)).
  { apply register_all_keeps. unfold Client_init.
    rewrite (event_entry None BYTES disconnect). eexists. reflexivity. }
  split; [exact Hd|]. split.
  - intros n m f k. apply event_keeps.
  - intros w Hw. destruct Hd as [entry Hentry].
    unfold on_connection_error, bind, get_self. rewrite Hw, Hentry. simpl.
    eexists. reflexivity.
Qed.

(** C6.  The wrapper that [event] stores for a handler adapts the arguments
    by the name it is registered under (the name given, or the function's
    own name): under [connect], [disconnect] and [pong] the handler is
    called with no argument; under [message] it is called with the payload
    decoded as UTF-8 text (and not called when the payload does not decode
    or is no bytes object); under any other name it is called with the
    payload as it is, bytes or temporary file. *)
Theorem C6_wrapper_adapts_arguments (name : option string)
    (data_mode : DataMode) (func : Func) (c : Client) (data : Payload) :
  let event_name := default (func_name func) name in
  exists fn,
    events (event name data_mode func c) !! event_name = Some (fn, data_mode)
    /\ (event_name = "connect"%string \/ event_name = "disconnect"%string
        \/ event_name = "pong"%string ->
        await_call fn data = Returned (Call func []))
    /\ (event_name = "message"%string ->
        await_call fn data
        = match data with
          | PBytes b =>
            match decode b with
            | Some s => Returned (Call func [AText s])
            | None => Raised UnicodeDecodeError
            end
          | _ => Raised AttributeError
          end)
    /\ (event_name <> "connect"%string -> event_name <> "disconnect"%string ->
        event_name <> "pong"%string -> event_name <> "message"%string ->
        await_call fn data = Returned (Call func [AData data])).
Proof.
  intros event_name. exists (wrapper event_name func). split.
  { apply event_entry. }
  unfold await_call, reserved_events. split; [|split].
  - intros [-> | [-> | ->]]; reflexivity.
  - intros ->. reflexivity.
  - intros H1 H2 H3 H4.
    rewrite !lookup_insert_ne by congruence. reflexivity.
Qed.

End Registration.

(** ** The receive path *)

Section Receive.
Context `{Asyncio} `{EncryptorModule} `{PyLib}.

(** What receiving may change: the reader moves on, lines are printed and
    coroutine objects are scheduled; the client object and the writer stay
    as they are. *)
Definition received (w w' : World) : Prop :=
  self w' = self w /\ writer_obj w' = writer_obj w
  /\ connection_event_set w' = connection_event_set w
  /\ (exists out, stdout w' = stdout w ++ out)
  /\ (exists tasks, futures w' = futures w ++ tasks).

Definition receiving {A} (m : M A) : Prop :=
  forall w, received w (snd (m w)).

Lemma received_refl w : received w w.
Proof.
  unfold received. repeat split; exists []; rewrite app_nil_r; reflexivity.
Qed.

Lemma received_trans w1 w2 w3 :
  received w1 w2 -> received w2 w3 -> received w1 w3.
Proof.
  unfold received.
  intros (Hs1 & Hw1 & Hc1 & [o1 Ho1] & [t1 Ht1])
         (Hs2 & Hw2 & Hc2 & [o2 Ho2] & [t2 Ht2]).
  split; [congruence|]. split; [congruence|]. split; [congruence|]. split.
  - exists (o1 ++ o2). rewrite Ho2, Ho1, app_assoc. reflexivity.
  - exists (t1 ++ t2). rewrite Ht2, Ht1, app_assoc. reflexivity.
Qed.

Lemma receiving_bind {A B} (m : M A) (k : A -> M B) :
  receiving m -> (forall a, receiving (k a)) -> receiving (bind m k).
Proof.
  intros Hm Hk w. unfold bind. specialize (Hm w).
  destruct (m w) as [[a| |] w1]; simpl in *; [|assumption|assumption].
  eapply received_trans; [exact Hm | apply Hk].
Qed.

Lemma receiving_ret {A} (a : A) : receiving (ret a).
Proof. intros w. apply received_refl. Qed.

Lemma receiving_raise {A} e : receiving (@raise _ A e).
Proof. intros w. apply received_refl. Qed.

Lemma receiving_unfinished {A} : receiving (@unfinished _ A).
Proof. intros w. apply received_refl. Qed.

Lemma receiving_or_raise {A} (o : option A) e : receiving (or_raise o e).
Proof. intros w. destruct o; apply received_refl. Qed.

Lemma receiving_get_self : receiving get_self.
Proof. intros w. apply received_refl. Qed.

Lemma receiving_stream_read r n : receiving (stream_read r n).
Proof.
  intros w. destruct r as [[]|]; simpl; [|apply received_refl].
  unfold received. simpl.
  repeat split; exists []; rewrite app_nil_r; reflexivity.
Qed.

Lemma receiving_print s : receiving (print s).
Proof.
  intros w. unfold received. simpl. repeat split.
  - exists [s]. reflexivity.
  - exists []. rewrite app_nil_r. reflexivity.
Qed.

Lemma receiving_ensure_future t : receiving (ensure_future t).
Proof.
  intros w. unfold received. simpl. repeat split.
  - exists []. rewrite app_nil_r. reflexivity.
  - exists [t]. reflexivity.
Qed.

Lemma receiving_if {A} (b : bool) (m1 m2 : M A) :
  receiving m1 -> receiving m2 -> receiving (if b then m1 else m2).
Proof. destruct b; auto. Qed.

Create HintDb receiving.

#[local] Hint Resolve receiving_ret receiving_raise receiving_unfinished
  receiving_or_raise receiving_get_self receiving_stream_read
  receiving_print receiving_ensure_future : receiving.

Ltac receiving_step :=
  repeat first
    [ apply receiving_bind; [ | intros ? ]
    | apply receiving_if
    | solve [ auto with receiving ] ].

Lemma receiving_self_reader_read n : receiving (self_reader_read n).
Proof. unfold self_reader_read. receiving_step. Qed.

Lemma receiving_self_decrypt data iv : receiving (self_decrypt data iv).
Proof. unfold self_decrypt. receiving_step. Qed.

#[local] Hint Resolve receiving_self_reader_read receiving_self_decrypt
  : receiving.

Lemma receiving_write_to_file_loop fuel : forall file reader remaining iv h,
  receiving (write_to_file_loop fuel file reader remaining iv h).
Proof.
  induction fuel as [|fuel IH]; intros file reader remaining iv h; simpl;
    destruct (remaining >? 0); auto with receiving.
  apply receiving_bind; [auto with receiving|]. intros ed.
  apply receiving_if; [auto with receiving|].
  apply receiving_bind; [auto with receiving|]. intros data. apply IH.
Qed.

Lemma receiving_read_frame_header : receiving read_frame_header.
Proof. unfold read_frame_header. receiving_step. Qed.

Lemma receiving_receive_payload data_mode data_len iv :
  receiving (receive_payload data_mode data_len iv).
Proof.
  unfold receive_payload. destruct data_mode; receiving_step.
  apply receiving_write_to_file_loop.
Qed.

Lemma receiving_verify_and_dispatch fn buffer hsh :
  receiving (verify_and_dispatch fn buffer hsh).
Proof. unfold verify_and_dispatch. receiving_step. Qed.

Lemma receiving_process_incoming_event : receiving process_incoming_event.
Proof.
  unfold process_incoming_event.
  apply receiving_bind; [apply receiving_read_frame_header|]. intros hdr.
  apply receiving_bind; [apply receiving_get_self|]. intros c.
  apply receiving_bind; [apply receiving_receive_payload|]. intros r.
  apply receiving_verify_and_dispatch.
Qed.

Lemma receiving_process_incoming_events fuel :
  receiving (process_incoming_events fuel).
Proof.
  induction fuel as [|fuel IH]; simpl; [apply receiving_unfinished|].
  apply receiving_bind; [apply receiving_process_incoming_event|].
  intros _. exact IH.
Qed.

(** The digest the chunk loop returns is that of the bytes it wrote. *)
Lemma write_to_file_loop_digest fuel :
  forall file reader remaining iv h w digest file' w',
  fed h = file_data file ->
  write_to_file_loop fuel file reader remaining iv h w
  = (Returned (digest, file'), w') ->
  digest = sha512 (file_data file').
Proof.
  induction fuel as [|fuel IH];
    intros file reader remaining iv h w digest file' w' Hfed Hr; simpl in Hr;
    destruct (remaining >? 0).
  - discriminate.
  - inversion Hr; subst. unfold hash_digest. rewrite Hfed. reflexivity.
  - apply bind_returned in Hr as (ed & w1 & _ & Hr).
    destruct (negb (len ed =? Z.min remaining CHUNK)); [discriminate|].
    apply bind_returned in Hr as (data & w2 & _ & Hr).
    eapply IH; [|exact Hr]. simpl. rewrite Hfed. reflexivity.
  - inversion Hr; subst. unfold hash_digest. rewrite Hfed. reflexivity.
Qed.

(** On either path the digest is the SHA-512 of the plaintext handed on. *)
Lemma receive_payload_digest data_mode data_len iv w buffer hsh w' :
  receive_payload data_mode data_len iv w = (Returned (buffer, hsh), w') ->
  hsh = sha512 (payload_plaintext buffer).
Proof.
  unfold receive_payload. destruct data_mode; intros Hr.
  - apply bind_returned in Hr as (c & w1 & _ & Hr).
    apply bind_returned in Hr as ([digest file'] & w2 & Hloop & Hr).
    inversion Hr; subst. simpl.
    eapply write_to_file_loop_digest; [|exact Hloop]. reflexivity.
  - apply bind_returned in Hr as (b & w1 & _ & Hr).
    destruct (negb (len b =? data_len)); [discriminate|].
    apply bind_returned in Hr as (plain & w2 & _ & Hr).
    inversion Hr; subst. reflexivity.
Qed.

(** A header that was read was read through a reader that is there. *)
Lemma read_frame_header_reader w hdr w' :
  read_frame_header w = (Returned hdr, w') ->
  reader (self w) = Some reader_ref.
Proof.
  unfold read_frame_header. intros Hr.
  apply bind_returned in Hr as (iv & w1 & Hiv & _).
  unfold self_reader_read, bind, get_self, stream_read in Hiv.
  destruct (reader (self w)) as [[]|]; [reflexivity | discriminate].
Qed.

(** Whatever the signature read returns, the event is dispatched. *)
Lemma verify_and_dispatch_run fn buffer hsh key w :
  reader (self w) = Some reader_ref ->
  server_public_key (self w) = Some key ->
  exists w',
    verify_and_dispatch fn buffer hsh w = (Returned tt, w')
    /\ self w' = self w
    /\ writer_obj w' = writer_obj w
    /\ reader_obj w' = snd (read 2048 (reader_obj w))
    /\ futures w' = futures w ++ [{| task_fn := fn; task_arg := buffer |}]
    /\ stdout w'
       = stdout w
         ++ (if int_from_bytes hsh
                =? pow (int_from_bytes (fst (read 2048 (reader_obj w))))
                       (key_e key) (key_n key)
             then []
             else ["something wrong with the signature"%string]).
Proof.
  intros Hrd Hkey.
  unfold verify_and_dispatch, self_reader_read, bind, get_self, stream_read.
  rewrite Hrd. simpl. rewrite Hkey. simpl.
  destruct (int_from_bytes hsh =? _); simpl;
    eexists; (split; [reflexivity|]); simpl; rewrite ?app_nil_r;
    repeat split.
Qed.

Lemma finishes_read_frame_header : finishes read_frame_header.
Proof.
  unfold read_frame_header.
  apply finishes_bind; [apply finishes_self_reader_read|]. intros iv.
  apply finishes_if; [apply finishes_raise|].
  apply finishes_bind; [apply finishes_self_reader_read|]. intros field.
  apply finishes_if; [apply finishes_raise|].
  apply finishes_bind; [apply finishes_self_decrypt|]. intros data.
  apply finishes_bind; [apply finishes_self_reader_read|]. intros header.
  apply finishes_if; [apply finishes_raise|].
  apply finishes_bind; [apply finishes_self_decrypt|]. intros plain.
  apply finishes_bind; [apply finishes_or_raise|]. intros hdr.
  apply finishes_ret.
Qed.

Lemma finishes_receive_payload data_mode data_len iv :
  finishes (receive_payload data_mode data_len iv).
Proof.
  unfold receive_payload. destruct data_mode.
  - apply finishes_bind; [apply finishes_get_self|]. intros c.
    apply finishes_bind; [apply finishes_write_to_file|]. intros r.
    apply finishes_ret.
  - apply finishes_bind; [apply finishes_self_reader_read|]. intros b.
    apply finishes_if; [apply finishes_raise|].
    apply finishes_bind; [apply finishes_self_decrypt|]. intros plain.
    apply finishes_ret.
Qed.

Lemma finishes_verify_and_dispatch fn buffer hsh :
  finishes (verify_and_dispatch fn buffer hsh).
Proof.
  unfold verify_and_dispatch.
  apply finishes_bind; [apply finishes_self_reader_read|]. intros sg.
  apply finishes_bind; [apply finishes_get_self|]. intros c.
  apply finishes_bind; [apply finishes_or_raise|]. intros key.
  apply finishes_bind; [|intros _; apply finishes_ensure_future].
  apply finishes_if; [apply finishes_print | apply finishes_ret].
Qed.

(** One iteration of the loop always comes to an end. *)
Lemma finishes_process_incoming_event : finishes process_incoming_event.
Proof.
  unfold process_incoming_event.
  apply finishes_bind; [apply finishes_read_frame_header|]. intros hdr.
  apply finishes_bind; [apply finishes_get_self|]. intros c.
  apply finishes_bind; [apply finishes_receive_payload|]. intros r.
  apply finishes_verify_and_dispatch.
Qed.

End Receive.

(** ** Claims on the receive loop and the connection *)

Section ReceiveClaims.
Context `{Asyncio} `{EncryptorModule} `{PyLib}.

Lemma self_reader_read_returned n w b w' :
  self_reader_read n w = (Returned b, w') ->
  reader (self w) = Some reader_ref
  /\ b = fst (read n (reader_obj w))
  /\ w' = set_reader_obj (snd (read n (reader_obj w))) w.
Proof.
  unfold self_reader_read, bind, get_self, stream_read.
  destruct (reader (self w)) as [[]|]; intros Hr; inversion Hr; auto.
Qed.

Lemma self_decrypt_returned data iv w plain w' :
  self_decrypt data iv w = (Returned plain, w') ->
  w' = w /\ exists enc, encryptor (self w) = Some enc
            /\ sym_decrypt (session_key enc) data iv = Some plain.
Proof.
  unfold self_decrypt, bind, get_self, or_raise, ret, raise.
  destruct (encryptor (self w)) as [enc|]; [|discriminate].
  destruct (sym_decrypt (session_key enc) data iv) eqn:Hd;
    intros Hr; inversion Hr; subst.
  split; [reflexivity|]. exists enc. auto.
Qed.

Lemma self_reader_read_run n w :
  reader (self w) = Some reader_ref ->
  self_reader_read n w
  = (Returned (fst (read n (reader_obj w))),
     set_reader_obj (snd (read n (reader_obj w))) w).
Proof.
  intros Hrd. unfold self_reader_read, bind, get_self, stream_read.
  rewrite Hrd. reflexivity.
Qed.

Lemma self_decrypt_run data iv w enc plain :
  encryptor (self w) = Some enc ->
  sym_decrypt (session_key enc) data iv = Some plain ->
  self_decrypt data iv w = (Returned plain, w).
Proof.
  intros Henc Hdec. unfold self_decrypt, bind, get_self, or_raise, ret.
  rewrite Henc, Hdec. reflexivity.
Qed.

Lemma bind_raised_inv {A B} (m : M A) (k : A -> M B) w e w' :
  bind m k w = (Raised e, w') ->
  m w = (Raised e, w')
  \/ exists a w1, m w = (Returned a, w1) /\ k a w1 = (Raised e, w').
Proof.
  unfold bind. destruct (m w) as [[a| |] w1]; intros Hr.
  - right. exists a, w1. auto.
  - left. inversion Hr; subst. reflexivity.
  - discriminate.
Qed.

(** *** The read points that are checked *)

(** A short read of the IV raises [ConnectionError]. *)
Lemma short_iv_raises w :
  reader (self w) = Some reader_ref ->
  len (fst (read 16 (reader_obj w))) <> 16 ->
  fst (read_frame_header w) = Raised ConnectionError.
Proof.
  intros Hrd Hshort. unfold read_frame_header.
  rewrite (bind_run _ _ _ _ _ (self_reader_read_run 16 w Hrd)).
  apply Z.eqb_neq in Hshort. rewrite Hshort. reflexivity.
Qed.

(** A short read of the encrypted length field raises [ConnectionError]. *)
Lemma short_length_field_raises w :
  let r1 := read 16 (reader_obj w) in
  reader (self w) = Some reader_ref ->
  len (fst r1) = 16 ->
  len (fst (read 16 (snd r1))) <> 16 ->
  fst (read_frame_header w) = Raised ConnectionError.
Proof.
  intros r1 Hrd Hiv Hshort. unfold read_frame_header.
  rewrite (bind_run _ _ _ _ _ (self_reader_read_run 16 w Hrd)).
  fold r1. apply Z.eqb_eq in Hiv. rewrite Hiv. cbn [negb].
  rewrite (bind_run _ _ _ _ _
             (self_reader_read_run 16 (set_reader_obj (snd r1) w) Hrd)).
  cbn [reader_obj set_reader_obj].
  apply Z.eqb_neq in Hshort. rewrite Hshort. reflexivity.
Qed.

(** A short read of the encrypted header raises [ConnectionError]. *)
Lemma short_header_raises w enc length_field :
  let r1 := read 16 (reader_obj w) in
  let r2 := read 16 (snd r1) in
  let data_len := int_from_bytes length_field in
  reader (self w) = Some reader_ref ->
  encryptor (self w) = Some enc ->
  len (fst r1) = 16 ->
  len (fst r2) = 16 ->
  sym_decrypt (session_key enc) (fst r2) (fst r1) = Some length_field ->
  len (fst (read data_len (snd r2))) <> data_len ->
  fst (read_frame_header w) = Raised ConnectionError.
Proof.
  intros r1 r2 data_len Hrd Henc Hiv Hlf Hdec Hshort. unfold read_frame_header.
  rewrite (bind_run _ _ _ _ _ (self_reader_read_run 16 w Hrd)).
  fold r1. apply Z.eqb_eq in Hiv. rewrite Hiv. cbn [negb].
  rewrite (bind_run _ _ _ _ _
             (self_reader_read_run 16 (set_reader_obj (snd r1) w) Hrd)).
  cbn [reader_obj set_reader_obj]. fold r2.
  apply Z.eqb_eq in Hlf. rewrite Hlf. cbn [negb].
  rewrite (bind_run _ _ _ _ _
             (self_decrypt_run _ _
                (set_reader_obj (snd r2) (set_reader_obj (snd r1) w))
                enc length_field Henc Hdec)).
  rewrite (bind_run _ _ _ _ _
             (self_reader_read_run _
                (set_reader_obj (snd r2) (set_reader_obj (snd r1) w)) Hrd)).
  cbn [reader_obj set_reader_obj]. fold data_len.
  apply Z.eqb_neq in Hshort. rewrite Hshort. reflexivity.
Qed.

(** A short read of a buffered payload raises [ConnectionError]. *)
Lemma short_payload_raises data_len iv w :
  reader (self w) = Some reader_ref ->
  len (fst (read data_len (reader_obj w))) <> data_len ->
  fst (receive_payload BYTES data_len iv w) = Raised ConnectionError.
Proof.
  intros Hrd Hshort. unfold receive_payload.
  rewrite (bind_run _ _ _ _ _ (self_reader_read_run data_len w Hrd)).
  apply Z.eqb_neq in Hshort. rewrite Hshort. reflexivity.
Qed.

(** A short read of any chunk of a streamed payload raises
    [ConnectionError]: every iteration of the chunk loop checks its read. *)
Lemma short_chunk_raises fuel file remaining iv file_hash w :
  0 < remaining ->
  len (fst (read (Z.min remaining CHUNK) (reader_obj w)))
  <> Z.min remaining CHUNK ->
  fst (write_to_file_loop (S fuel) file (Some reader_ref) remaining iv
         file_hash w)
  = Raised ConnectionError.
Proof.
  intros Hpos Hshort. simpl.
  destruct (remaining >? 0) eqn:Hgt; [|lia].
  unfold bind at 1, stream_read.
  apply Z.eqb_neq in Hshort. rewrite Hshort. reflexivity.
Qed.

(** Receiving the header and the payload schedules nothing. *)
Definition quiet {A} (m : M A) : Prop :=
  forall w, futures (snd (m w)) = futures w.

Lemma quiet_bind {A B} (m : M A) (k : A -> M B) :
  quiet m -> (forall a, quiet (k a)) -> quiet (bind m k).
Proof.
  intros Hm Hk w. unfold bind. specialize (Hm w).
  destruct (m w) as [[a| |] w1]; simpl in *; [|assumption|assumption].
  rewrite Hk. exact Hm.
Qed.

Lemma quiet_if {A} (b : bool) (m1 m2 : M A) :
  quiet m1 -> quiet m2 -> quiet (if b then m1 else m2).
Proof. destruct b; auto. Qed.

Lemma quiet_or_raise {A} (o : option A) e : quiet (or_raise o e).
Proof. intros w. destruct o; reflexivity. Qed.

Lemma quiet_stream_read r n : quiet (stream_read r n).
Proof. intros w. destruct r as [[]|]; reflexivity. Qed.

Lemma quiet_self_reader_read n : quiet (self_reader_read n).
Proof.
  unfold self_reader_read. apply quiet_bind; [intros w; reflexivity|].
  intros c. apply quiet_stream_read.
Qed.

Lemma quiet_self_decrypt data iv : quiet (self_decrypt data iv).
Proof.
  unfold self_decrypt. apply quiet_bind; [intros w; reflexivity|].
  intros c. apply quiet_bind; [apply quiet_or_raise|].
  intros enc. apply quiet_or_raise.
Qed.

Lemma quiet_write_to_file_loop fuel : forall file reader remaining iv h,
  quiet (write_to_file_loop fuel file reader remaining iv h).
Proof.
  induction fuel as [|fuel IH]; intros file reader remaining iv h; simpl;
    destruct (remaining >? 0); try (intros w; reflexivity).
  apply quiet_bind; [apply quiet_stream_read|]. intros ed.
  apply quiet_if; [intros w; reflexivity|].
  apply quiet_bind; [apply quiet_self_decrypt|]. intros data. apply IH.
Qed.

Lemma quiet_read_frame_header : quiet read_frame_header.
Proof.
  unfold read_frame_header.
  apply quiet_bind; [apply quiet_self_reader_read|]. intros iv.
  apply quiet_if; [intros w; reflexivity|].
  apply quiet_bind; [apply quiet_self_reader_read|]. intros field.
  apply quiet_if; [intros w; reflexivity|].
  apply quiet_bind; [apply quiet_self_decrypt|]. intros data.
  apply quiet_bind; [apply quiet_self_reader_read|]. intros header.
  apply quiet_if; [intros w; reflexivity|].
  apply quiet_bind; [apply quiet_self_decrypt|]. intros plain.
  apply quiet_bind; [apply quiet_or_raise|]. intros hdr w. reflexivity.
Qed.

Lemma quiet_receive_payload data_mode data_len iv :
  quiet (receive_payload data_mode data_len iv).
Proof.
  unfold receive_payload. destruct data_mode.
  - apply quiet_bind; [intros w; reflexivity|]. intros c.
    apply quiet_bind; [apply quiet_write_to_file_loop|]. intros r w.
    reflexivity.
  - apply quiet_bind; [apply quiet_self_reader_read|]. intros b.
    apply quiet_if; [intros w; reflexivity|].
    apply quiet_bind; [apply quiet_self_decrypt|]. intros plain w.
    reflexivity.
Qed.

(** An iteration that raises has dispatched nothing: the dispatch is its last
    step. *)
Lemma raised_before_dispatch w e w' :
  process_incoming_event w = (Raised e, w') -> futures w' = futures w.
Proof.
  unfold process_incoming_event. intros Hr.
  apply bind_raised_inv in Hr as [Hr | (hdr & w1 & Hh & Hr)].
  { pose proof (quiet_read_frame_header w) as Hq. rewrite Hr in Hq.
    exact Hq. }
  pose proof (quiet_read_frame_header w) as Hq1. rewrite Hh in Hq1.
  simpl in Hq1. rewrite <- Hq1.
  apply bind_raised_inv in Hr as [Hr | (c & w1' & Hc & Hr)];
    [discriminate|].
  apply get_self_returned in Hc as [-> ->].
  apply bind_raised_inv in Hr as [Hr | (r & w2 & Hp & Hr)].
  { pose proof (quiet_receive_payload
                  (snd (lookup_event (self w1) (fst (snd hdr)) (snd (snd hdr))))
                  (snd (snd hdr)) (fst hdr) w1) as Hq.
    rewrite Hr in Hq. exact Hq. }
  pose proof (quiet_receive_payload
                (snd (lookup_event (self w1) (fst (snd hdr)) (snd (snd hdr))))
                (snd (snd hdr)) (fst hdr) w1) as Hq2.
  rewrite Hp in Hq2. simpl in Hq2. rewrite <- Hq2.
  unfold verify_and_dispatch, self_reader_read, bind, get_self, stream_read,
    or_raise, ret, raise, print, ensure_future in Hr.
  destruct (reader (self w2)) as [[]|]; simpl in Hr.
  - destruct (server_public_key (self w2)); simpl in Hr.
    + destruct (negb _) in Hr; discriminate.
    + inversion Hr; subst. reflexivity.
  - inversion Hr; subst. reflexivity.
Qed.

(** The loop never returns: it raises, or it is still running. *)
Lemma process_incoming_events_never_returns fuel : forall w u w',
  process_incoming_events fuel w <> (Returned u, w').
Proof.
  induction fuel as [|fuel IH]; intros w u w'; simpl; [discriminate|].
  unfold bind. destruct (process_incoming_event w) as [[a| |] w1];
    [apply IH | discriminate | discriminate].
Qed.

(** Once the loop has raised within some bound, a larger bound changes
    nothing. *)
Lemma process_incoming_events_more_fuel fuel : forall fuel' w,
  (fuel <= fuel')%nat ->
  fst (process_incoming_events fuel w) <> Unfinished ->
  process_incoming_events fuel' w = process_incoming_events fuel w.
Proof.
  induction fuel as [|fuel IH]; intros fuel' w Hle Hfin; simpl in *;
    [congruence|].
  destruct fuel' as [|fuel']; [lia|]. simpl. unfold bind in *.
  destruct (process_incoming_event w) as [[a| |] w1]; try reflexivity.
  apply IH; [lia | exact Hfin].
Qed.

(** The rest of an iteration once the header is read. *)
Lemma process_incoming_event_after_header w iv event data_len w1 :
  read_frame_header w = (Returned (iv, (event, data_len)), w1) ->
  process_incoming_event w
  = (r <- receive_payload (snd (lookup_event (self w) event data_len))
                          data_len iv ;;
     verify_and_dispatch (fst (lookup_event (self w) event data_len))
                         (fst r) (snd r)) w1.
Proof.
  intros Hh. unfold process_incoming_event.
  rewrite (bind_run _ _ _ _ _ Hh). simpl.
  pose proof (receiving_read_frame_header w) as Hrec.
  rewrite Hh in Hrec. destruct Hrec as [Hself _]. simpl in Hself.
  unfold bind at 1, get_self. rewrite Hself. reflexivity.
Qed.

(** C3.  Once the header and the payload of a frame are received, the loop
    reads the signature, computes [pow(signature, e, n)] with the peer's
    public key and compares it with the SHA-512 digest of the plaintext
    payload, read as a big-endian integer.  Whether they match or not the
    iteration returns and the event is handed to its handler; on a mismatch
    one line is printed first.  The client and its writer are left as they
    were: nothing is closed. *)
Theorem C3_signature_mismatch_still_dispatched (w w1 w2 : World) (iv : bytes)
    (event : string) (data_len : Z) (buffer : Payload) (hsh : bytes)
    (key : RsaKey) :
  read_frame_header w = (Returned (iv, (event, data_len)), w1) ->
  receive_payload (snd (lookup_event (self w) event data_len)) data_len iv w1
  = (Returned (buffer, hsh), w2) ->
  server_public_key (self w) = Some key ->
  exists w3,
    process_incoming_event w = (Returned tt, w3)
    /\ hsh = sha512 (payload_plaintext buffer)
    /\ futures w3
       = futures w2
         ++ [{| task_fn := fst (lookup_event (self w) event data_len);
                task_arg := buffer |}]
    /\ stdout w3
       = stdout w2
         ++ (if int_from_bytes (sha512 (payload_plaintext buffer))
                =? pow (int_from_bytes (fst (read 2048 (reader_obj w2))))
                       (key_e key) (key_n key)
             then []
             else ["something wrong with the signature"%string])
    /\ self w3 = self w
    /\ writer_obj w3 = writer_obj w.
Proof.
  intros Hh Hp Hkey.
  pose proof (read_frame_header_reader _ _ _ Hh) as Hrd.
  pose proof (receiving_read_frame_header w) as Hrec1.
  rewrite Hh in Hrec1. destruct Hrec1 as (Hs1 & Hw1 & _). simpl in Hs1, Hw1.
  pose proof (receiving_receive_payload
                (snd (lookup_event (self w) event data_len)) data_len iv w1)
    as Hrec2.
  rewrite Hp in Hrec2. destruct Hrec2 as (Hs2 & Hw2 & _). simpl in Hs2, Hw2.
  pose proof (receive_payload_digest _ _ _ _ _ _ _ Hp) as Hdigest.
  destruct (verify_and_dispatch_run
              (fst (lookup_event (self w) event data_len)) buffer hsh key w2)
    as (w3 & Hv & Hs3 & Hw3 & _ & Hf & Hout).
  { rewrite Hs2, Hs1. exact Hrd. }
  { rewrite Hs2, Hs1. exact Hkey. }
  exists w3. split.
  { rewrite (process_incoming_event_after_header _ _ _ _ _ Hh).
    rewrite (bind_run _ _ _ _ _ Hp). exact Hv. }
  split; [exact Hdigest|]. split; [exact Hf|]. split.
  { rewrite Hout, Hdigest. reflexivity. }
  split; congruence.
Qed.

(** A payload of [remaining] bytes streamed off a reader: as long as bytes
    remain, a chunk of at most [CHUNK] bytes is read whole and decrypted
    under the session key with the frame's IV; the plaintexts, in order, are
    what is stored. *)
Inductive streamed (key iv : bytes)
    : Z -> StreamReader -> bytes -> StreamReader -> Prop :=
| streamed_end (remaining : Z) (r : StreamReader) :
    remaining <= 0 -> streamed key iv remaining r [] r
| streamed_chunk (remaining : Z) (r r' : StreamReader) (plain rest : bytes) :
    0 < remaining ->
    len (fst (read (Z.min remaining CHUNK) r)) = Z.min remaining CHUNK ->
    sym_decrypt key (fst (read (Z.min remaining CHUNK) r)) iv = Some plain ->
    streamed key iv (remaining - Z.min remaining CHUNK)
             (snd (read (Z.min remaining CHUNK) r)) rest r' ->
    streamed key iv remaining r (plain ++ rest) r'.

(** The chunk loop of [write_to_file] streams the payload into the file and
    hashes what it stores. *)
Lemma write_to_file_loop_streamed fuel :
  forall file reader remaining iv h w digest file' w' enc,
  write_to_file_loop fuel file reader remaining iv h w
  = (Returned (digest, file'), w') ->
  encryptor (self w) = Some enc ->
  exists plain,
    file_data file' = file_data file ++ plain
    /\ digest = sha512 (fed h ++ plain)
    /\ streamed (session_key enc) iv remaining (reader_obj w) plain
                (reader_obj w').
Proof.
  induction fuel as [|fuel IH];
    intros file reader remaining iv h w digest file' w' enc Hr Henc;
    simpl in Hr; destruct (remaining >? 0) eqn:Hpos.
  - discriminate.
  - inversion Hr; subst. exists []. rewrite !app_nil_r.
    split; [reflexivity|]. split; [reflexivity|]. constructor. lia.
  - apply bind_returned in Hr as (ed & w1 & Hread & Hr).
    destruct (len ed =? Z.min remaining CHUNK) eqn:Hlen; [|discriminate].
    cbn [negb] in Hr. apply Z.eqb_eq in Hlen.
    apply bind_returned in Hr as (data & w2 & Hdec & Hr).
    unfold stream_read in Hread.
    destruct reader as [[]|]; [|discriminate]. inversion Hread; subst ed w1.
    apply self_decrypt_returned in Hdec as (-> & enc' & Henc' & Hdec).
    cbn [self set_reader_obj] in Henc'.
    rewrite Henc in Henc'. inversion Henc'; subst enc'.
    apply (IH _ _ _ _ _ _ _ _ _ enc) in Hr as (plain & Hfile & Hdigest & Hs);
      [|exact Henc].
    cbn [file_data file_write fed hash_update] in Hfile, Hdigest.
    cbn [reader_obj set_reader_obj] in Hs.
    exists (data ++ plain). rewrite !app_assoc.
    split; [exact Hfile|]. split; [exact Hdigest|].
    apply streamed_chunk; [lia | exact Hlen | exact Hdec | exact Hs].
  - inversion Hr; subst. exists []. rewrite !app_nil_r.
    split; [reflexivity|]. split; [reflexivity|]. constructor. lia.
Qed.

(** A chunk loop that returns with bytes to read has used the session
    key. *)
Lemma write_to_file_loop_encryptor fuel file reader remaining iv h w r w' :
  write_to_file_loop fuel file reader remaining iv h w = (Returned r, w') ->
  0 < remaining ->
  exists enc, encryptor (self w) = Some enc.
Proof.
  intros Hr Hpos. destruct fuel as [|fuel]; simpl in Hr;
    (destruct (remaining >? 0) eqn:Hgt; [|lia]); [discriminate|].
  apply bind_returned in Hr as (ed & w1 & Hread & Hr).
  destruct (negb (len ed =? Z.min remaining CHUNK)); [discriminate|].
  apply bind_returned in Hr as (data & w2 & Hdec & _).
  unfold stream_read in Hread.
  destruct reader as [[]|]; [|discriminate]. inversion Hread; subst ed w1.
  apply self_decrypt_returned in Hdec as (_ & enc & Henc & _).
  exists enc. exact Henc.
Qed.


(** What a handshake that returns leaves behind: both stream references set
    and the registration table untouched. *)
Lemma handshake_returned connection_event generated_key w w1 :
  handshake connection_event generated_key w = (Returned tt, w1) ->
  reader (self w1) = Some reader_ref
  /\ writer (self w1) = Some writer_ref
  /\ events (self w1) = events (self w)
  /\ futures w1 = futures w.
Proof.
  unfold handshake, bind, modify_self, get_self, or_raise, stream_write,
    stream_read, stream_drain, ret, raise, connection_event_set_now.
  cbn [self set_self set_reader set_writer client_public_key].
  destruct (to_bytes 8 (len (export_key (client_public_key (self w)))));
    [|discriminate].
  cbn -[to_bytes int_from_bytes].
  destruct (import_key _); [|discriminate].
  cbn -[to_bytes int_from_bytes].
  destruct (to_bytes 8 _); [|discriminate].
  cbn -[to_bytes int_from_bytes].
  destruct connection_event; intros Hr; inversion Hr; subst; simpl; auto.
Qed.

(** The handshake checks no length: it never raises [ConnectionError]. *)
Lemma handshake_never_ConnectionError connection_event generated_key w :
  fst (handshake connection_event generated_key w) <> Raised ConnectionError.
Proof.
  unfold handshake, bind, modify_self, get_self, or_raise, stream_write,
    stream_read, stream_drain, ret, raise, connection_event_set_now.
  cbn [self set_self set_reader set_writer client_public_key].
  destruct (to_bytes 8 (len (export_key (client_public_key (self w)))));
    [|discriminate].
  cbn -[to_bytes int_from_bytes].
  destruct (import_key _); [|discriminate].
  cbn -[to_bytes int_from_bytes].
  destruct (to_bytes 8 _); [|discriminate].
  cbn -[to_bytes int_from_bytes].
  destruct connection_event; discriminate.
Qed.


End ReceiveClaims.

(** ** Runs on the executable instance *)

Module Concrete.
Import Sim.

Definition iv0 : bytes := bytes_of (repeat 9 16).

Definition hi : bytes := bytes_of [104; 105].

(** One frame as [send('view', b'hi')] writes it: 16 bytes of IV, 16 of
    encrypted header length, 48 of encrypted header, 16 of encrypted payload
    and 2048 of signature. *)
Definition frame_view : bytes := wire_of_send connected_client "view" hi iv0.

(** The same frame with its last byte changed. *)
Definition frame_tampered : bytes :=
  take (length frame_view - 1) frame_view ++ [byte_of 0].

(** The same frame cut after 10 of the 2048 signature bytes. *)
Definition frame_cut : bytes := take (length frame_view - 2038) frame_view.

(** What a server sends in the handshake: the length of its key on 8 bytes
    and the key. *)
Definition server_hello : bytes :=
  to_bytes_aux 8 (len (export public_key)) [] ++ export public_key.

Definition fresh_client : Client :=
  Client_init "alice" ("localhost"%string, 6666) (public_key, private_key).

(** *** The loop on a stream that ends *)

(** Whatever the cipher, the hash, the header codec and the key codec are:
    only the reader is the simulated one here. *)
Section FiniteStream.
Context `{EncryptorModule} `{PyLib}.

(** The bytes a stream still holds. *)
Definition remaining (w : World) : nat := length (concat (reader_obj w)).

Lemma seg_read_total n : forall s,
  (length (concat (snd (seg_read n s))) + length (fst (seg_read n s))
   = length (concat s))%nat.
Proof.
  induction s as [|seg rest IH]; simpl; [reflexivity|].
  destruct (n =? 0); [simpl; lia|].
  destruct (n <? 0); [simpl; lia|].
  destruct seg as [|x seg]; [exact IH|].
  assert (Hsplit : (length (take (Z.to_nat n) (x :: seg))
                    + length (drop (Z.to_nat n) (x :: seg))
                    = length (x :: seg))%nat).
  { rewrite <- length_app, take_drop. reflexivity. }
  rewrite length_app. cbn [fst snd].
  destruct (drop (Z.to_nat n) (x :: seg)) as [|y tl]; cbn [concat];
    rewrite ?length_app; simpl in *; lia.
Qed.

(** A body that only takes bytes off the stream. *)
Definition consumes {A} (m : M A) : Prop :=
  forall w, (remaining (snd (m w)) <= remaining w)%nat.

Lemma consumes_bind {A B} (m : M A) (k : A -> M B) :
  consumes m -> (forall a, consumes (k a)) -> consumes (bind m k).
Proof.
  intros Hm Hk w. unfold bind. specialize (Hm w).
  destruct (m w) as [[a| |] w1]; simpl in *; [|assumption|assumption].
  specialize (Hk a w1). lia.
Qed.

Lemma consumes_if {A} (b : bool) (m1 m2 : M A) :
  consumes m1 -> consumes m2 -> consumes (if b then m1 else m2).
Proof. destruct b; auto. Qed.

Lemma consumes_or_raise {A} (o : option A) e : consumes (or_raise o e).
Proof. intros w. destruct o; unfold remaining; simpl; lia. Qed.

Lemma consumes_stream_read r n : consumes (stream_read r n).
Proof.
  intros w. destruct r as [[]|]; unfold remaining; simpl; [|lia].
  pose proof (seg_read_total n (reader_obj w)). lia.
Qed.

Lemma consumes_self_reader_read n : consumes (self_reader_read n).
Proof.
  unfold self_reader_read. apply consumes_bind; [intros w; unfold remaining; simpl; lia|].
  intros c. apply consumes_stream_read.
Qed.

Lemma consumes_self_decrypt data iv : consumes (self_decrypt data iv).
Proof.
  unfold self_decrypt. apply consumes_bind; [intros w; unfold remaining; simpl; lia|].
  intros c. apply consumes_bind; [apply consumes_or_raise|].
  intros enc. apply consumes_or_raise.
Qed.

Lemma consumes_write_to_file_loop fuel : forall file reader rest iv h,
  consumes (write_to_file_loop fuel file reader rest iv h).
Proof.
  induction fuel as [|fuel IH]; intros file reader rest iv h; simpl;
    destruct (rest >? 0); try (intros w; unfold remaining; simpl; lia).
  apply consumes_bind; [apply consumes_stream_read|]. intros ed.
  apply consumes_if; [intros w; unfold remaining; simpl; lia|].
  apply consumes_bind; [apply consumes_self_decrypt|]. intros data. apply IH.
Qed.

Lemma consumes_receive_payload data_mode data_len iv :
  consumes (receive_payload data_mode data_len iv).
Proof.
  unfold receive_payload. destruct data_mode.
  - apply consumes_bind; [intros w; unfold remaining; simpl; lia|]. intros c.
    apply consumes_bind; [apply consumes_write_to_file_loop|]. intros r w.
    unfold remaining. simpl. lia.
  - apply consumes_bind; [apply consumes_self_reader_read|]. intros b.
    apply consumes_if; [intros w; unfold remaining; simpl; lia|].
    apply consumes_bind; [apply consumes_self_decrypt|]. intros plain w.
    unfold remaining. simpl. lia.
Qed.

Lemma consumes_verify_and_dispatch fn buffer hsh :
  consumes (verify_and_dispatch fn buffer hsh).
Proof.
  unfold verify_and_dispatch.
  apply consumes_bind; [apply consumes_self_reader_read|]. intros sg.
  apply consumes_bind; [intros w; unfold remaining; simpl; lia|]. intros c.
  apply consumes_bind; [apply consumes_or_raise|]. intros key.
  apply consumes_bind; [|intros _ w; unfold remaining; simpl; lia].
  apply consumes_if; intros w; unfold remaining; simpl; lia.
Qed.

(** A header that is read takes at least the 16 bytes of its IV off the
    stream. *)
Lemma header_takes_an_iv w hdr w1 :
  read_frame_header w = (Returned hdr, w1) ->
  (remaining w1 + 16 <= remaining w)%nat.
Proof.
  unfold read_frame_header. intros Hh.
  apply bind_returned in Hh as (iv & w0 & Hiv & Hh).
  destruct (len iv =? 16) eqn:Hlen; [|discriminate]. cbn [negb] in Hh.
  assert (Hhead : (remaining w1 <= remaining w0)%nat).
  { match type of Hh with
    | ?k w0 = _ => assert (Hk : consumes k)
    end.
    { apply consumes_bind; [apply consumes_self_reader_read|]. intros f.
      apply consumes_if; [intros w2; unfold remaining; simpl; lia|].
      apply consumes_bind; [apply consumes_self_decrypt|]. intros d.
      apply consumes_bind; [apply consumes_self_reader_read|]. intros hb.
      apply consumes_if; [intros w2; unfold remaining; simpl; lia|].
      apply consumes_bind; [apply consumes_self_decrypt|]. intros pl.
      apply consumes_bind; [apply consumes_or_raise|]. intros h w2.
      unfold remaining. simpl. lia. }
    specialize (Hk w0). rewrite Hh in Hk. exact Hk. }
  apply self_reader_read_returned in Hiv as (_ & -> & ->).
  apply Z.eqb_eq in Hlen. unfold len in Hlen.
  pose proof (seg_read_total 16 (reader_obj w)) as Htot.
  unfold remaining in *. simpl in *. lia.
Qed.

(** So does an iteration that returns. *)
Lemma iteration_takes_an_iv w u w' :
  process_incoming_event w = (Returned u, w') ->
  (remaining w' + 16 <= remaining w)%nat.
Proof.
  unfold process_incoming_event. intros Hr.
  apply bind_returned in Hr as (hdr & w1 & Hh & Hr).
  apply header_takes_an_iv in Hh.
  assert (Hrest : (remaining w' <= remaining w1)%nat); [|lia].
  match type of Hr with
  | ?k w1 = _ => assert (Hk : consumes k)
  end.
  { apply consumes_bind; [intros w2; unfold remaining; simpl; lia|].
    intros c. apply consumes_bind; [apply consumes_receive_payload|].
    intros r. apply consumes_verify_and_dispatch. }
  specialize (Hk w1). rewrite Hr in Hk. exact Hk.
Qed.

(** With one iteration allowed per 16 bytes of stream, and one more, the loop
    is not left running. *)
Lemma loop_ends_within fuel : forall w,
  (remaining w < 16 * fuel)%nat ->
  fst (process_incoming_events fuel w) <> Unfinished.
Proof.
  induction fuel as [|fuel IH]; intros w Hrem; [lia|]. simpl. unfold bind.
  pose proof (finishes_process_incoming_event w) as Hfin.
  destruct (process_incoming_event w) as [[u| |] w1] eqn:Hit;
    [|discriminate|contradiction].
  apply IH. apply iteration_takes_an_iv in Hit. lia.
Qed.

(** On a stream that ends, the receive loop ends by raising an exception. *)
Lemma loop_raises_on_finite_stream (c : Client) (stream : list bytes) :
  exists e w',
    process_incoming_events (S (length (concat stream) / 16))
      (world_of c stream)
    = (Raised e, w').
Proof.
  pose proof (loop_ends_within (S (length (concat stream) / 16))
                (world_of c stream)) as Hend.
  assert (Hlt : (remaining (world_of c stream)
                 < 16 * S (length (concat stream) / 16))%nat).
  { unfold remaining, world_of. cbn [reader_obj].
    pose proof (Nat.div_mod_eq (length (concat stream)) 16).
    pose proof (Nat.mod_upper_bound (length (concat stream)) 16
                  ltac:(discriminate)).
    lia. }
  specialize (Hend Hlt).
  destruct (process_incoming_events _ _) as [[u| |] w'] eqn:Hloop.
  - exfalso. exact (process_incoming_events_never_returns _ _ _ _ Hloop).
  - exists e, w'. reflexivity.
  - exfalso. apply Hend. reflexivity.
Qed.

End FiniteStream.

(** C4, run on a file of 16 bytes: [send_file] returns and the header it
    writes declares 32. *)
Lemma C4_witness :
  exists enc header_len rest,
    encryptor (self (world_of connected_client [])) = Some enc
    /\ written (writer_obj
                 (snd (send_file "file_edit" (bytes_of (repeat 7 16)) iv0
                         (world_of connected_client []))))
       = [] ++ iv0
         ++ sym_encrypt (session_key enc) header_len iv0
         ++ sym_encrypt (session_key enc) (json_dumps "file_edit" 32) iv0
         ++ rest.
Proof.
  pose (path := bytes_of (repeat 7 16)).
  pose (w := world_of connected_client []).
  assert (Hr : send_file "file_edit" path iv0 w
               = (Returned tt, snd (send_file "file_edit" path iv0 w))).
  { vm_compute. reflexivity. }
  exact (proj1 (C4_declared_length_strictly_above "file_edit" path iv0 w)
           _ Hr).
Defined.

(** C5, for the key pair [n = 61 * 53], [e = 17], [d = 2753] and the
    digest 65. *)
Lemma C5_witness : pow (pow 65 2753 3233) 17 3233 = 65.
Proof.
  apply (proj1 (C5_verify_recovers_signed_digest 
                  61 53 17 2753
                  (trial_division_prime 61 eq_refl)
                  (trial_division_prime 53 eq_refl)
                  ltac:(discriminate) ltac:(discriminate)
                  ltac:(discriminate) eq_refl)).
  split; [discriminate | reflexivity].
Defined.

(** C8, run on [send('view', b'hi')]: what is written ends in the signature
    of the digest of [b'hi']. *)
Lemma C8_witness :
  exists d frame signature,
    to_bytes 2048
      (pow (int_from_bytes (sha512 hi)) d
           (key_n (client_private_key connected_client))) = Some signature
    /\ written (writer_obj
                 (snd (send "view" hi iv0 (world_of connected_client []))))
       = [] ++ frame ++ signature.
Proof.
  pose (w := world_of connected_client []).
  assert (Hr : send "view" hi iv0 w
               = (Returned tt, snd (send "view" hi iv0 w))).
  { vm_compute. reflexivity. }
  destruct (proj1 (C8_signature_over_plaintext "view" hi hi iv0 w) _ Hr)
    as (d & frame & signature & _ & Hsig & _ & _ & Hwritten).
  exists d, frame, signature. split; [exact Hsig | exact Hwritten].
Defined.

(** C3, run on a frame whose signature was changed: the warning is printed
    and the event is dispatched all the same. *)
Lemma C3_witness :
  exists w3,
    process_incoming_event (world_of connected_client [frame_tampered])
    = (Returned tt, w3)
    /\ futures w3 = [{| task_fn := default_event; task_arg := PBytes hi |}]
    /\ stdout w3 = ["something wrong with the signature"%string].
Proof.
  pose (w := world_of connected_client [frame_tampered]).
  pose (w1 := snd (read_frame_header w)).
  pose (w2 := snd (receive_payload BYTES 16 iv0 w1)).
  assert (Hh : read_frame_header w
               = (Returned (iv0, ("view"%string, 16)), w1)).
  { vm_compute. reflexivity. }
  assert (Hp : receive_payload
                 (snd (lookup_event (self w) "view" 16)) 16 iv0 w1
               = (Returned (PBytes hi, sha512 hi), w2)).
  { vm_compute. reflexivity. }
  destruct (C3_signature_mismatch_still_dispatched
              w w1 w2 iv0 "view" 16 (PBytes hi) (sha512 hi) public_key
              Hh Hp eq_refl)
    as (w3 & Hr & _ & Hf & Hout & _).
  exists w3. split; [exact Hr|]. split.
  - rewrite Hf. vm_compute. reflexivity.
  - rewrite Hout. vm_compute. reflexivity.
Defined.

(** *** A payload above the threshold *)

(** 256 MiB and one chunk more. *)
Definition big_len : Z := 268436480.

(** The number of its chunks. *)
Definition big_blocks : nat := Z.to_nat 262145.

(** One chunk of ciphertext, 1024 bytes that end a padded block, and its
    plaintext. *)
Definition block : bytes := bytes_of (repeat 16 1024).

Definition block_plain : bytes := bytes_of (repeat 16 1008).

(** The IV, the encrypted length field and the encrypted header of a frame
    for the event [view] that declares [big_len] bytes. *)
Definition big_header_plain : bytes :=
  header_open ++ ascii_bytes "view" ++ header_middle
  ++ ascii_bytes "268436480" ++ ascii_bytes "}".

Definition big_header : bytes :=
  iv0 ++ pad (to_bytes_aux 8 (len (pad big_header_plain)) [])
      ++ pad big_header_plain.

Lemma big_header_read (rest : list bytes) :
  read_frame_header (world_of connected_client (big_header :: rest))
  = (Returned (iv0, ("view"%string, big_len)),
     world_of connected_client rest).
Proof. vm_compute. reflexivity. Qed.

Lemma block_read (rest : list bytes) :
  seg_read 1024 (block :: rest) = (block, rest).
Proof. vm_compute. reflexivity. Qed.

Lemma block_decrypt : unpad block = Some block_plain.
Proof. vm_compute. reflexivity. Qed.

Lemma block_len : len block = 1024.
Proof. vm_compute. reflexivity. Qed.

Lemma write_to_file_loop_step fuel file reader remaining iv h :
  write_to_file_loop (S fuel) file reader remaining iv h
  = if remaining >? 0 then
      let chunk := Z.min remaining CHUNK in
      encrypted_data <- stream_read reader chunk ;;
      if negb (len encrypted_data =? chunk) then raise ConnectionError
      else
        data <- self_decrypt encrypted_data iv ;;
        let file := file_write file data in
        let file_hash := hash_update h data in
        write_to_file_loop fuel file reader (remaining - chunk) iv file_hash
    else ret (hash_digest h, file).
Proof. reflexivity. Qed.

(** The chunk loop on a stream of [n] whole chunks. *)
Lemma blocks_streamed (n : nat) : forall fuel file h,
  (n <= fuel)%nat ->
  write_to_file_loop fuel file (Some reader_ref) (1024 * Z.of_nat n) iv0 h
    (world_of connected_client (repeat block n))
  = (Returned (sha512 (fed h ++ concat (repeat block_plain n)),
               {| file_data := file_data file
                               ++ concat (repeat block_plain n) |}),
     world_of connected_client []).
Proof.
  induction n as [|n IH]; intros fuel file h Hfuel.
  - change (1024 * Z.of_nat 0) with 0. cbn [repeat concat].
    rewrite !app_nil_r. destruct file as [data].
    destruct fuel; reflexivity.
  - destruct fuel as [|fuel]; [lia|].
    rewrite write_to_file_loop_step.
    replace (1024 * Z.of_nat (S n) >? 0) with true
      by (symmetry; apply Z.gtb_lt; lia).
    cbv zeta.
    replace (Z.min (1024 * Z.of_nat (S n)) CHUNK) with 1024
      by (unfold CHUNK; lia).
    replace (1024 * Z.of_nat (S n) - 1024) with (1024 * Z.of_nat n) by lia.
    cbn [repeat].
    assert (Hread : stream_read (Some reader_ref) 1024
                      (world_of connected_client (block :: repeat block n))
                    = (Returned block,
                       world_of connected_client (repeat block n))).
    { unfold stream_read, world_of. cbn [reader_obj read asyncio].
      rewrite block_read. reflexivity. }
    rewrite (bind_run _ _ _ _ _ Hread). rewrite block_len.
    cbn [Z.eqb Pos.eqb negb].
    assert (Hdec : self_decrypt block iv0
                     (world_of connected_client (repeat block n))
                   = (Returned block_plain,
                      world_of connected_client (repeat block n))).
    { apply (self_decrypt_run _ _ _ {| session_key := bytes_of [1; 2; 3; 4] |}); [reflexivity|].
      exact block_decrypt. }
    rewrite (bind_run _ _ _ _ _ Hdec).
    rewrite IH by lia.
    cbn [file_write file_data hash_update fed concat].
    rewrite <- !app_assoc. reflexivity.
Qed.

Lemma big_len_blocks : big_len = 1024 * Z.of_nat big_blocks.
Proof. unfold big_len, big_blocks. rewrite Z2Nat.id by lia. reflexivity. Qed.

(** The streamed path on a payload of [n] whole chunks. *)
Lemma payload_streamed (n : nat) (data_len : Z) :
  data_len = 1024 * Z.of_nat n ->
  receive_payload FILE data_len iv0
    (world_of connected_client (repeat block n))
  = (Returned
       (PFile {| file_data := [] ++ concat (repeat block_plain n) |},
        sha512 ([] ++ concat (repeat block_plain n))),
     world_of connected_client []).
Proof.
  intros ->.
  unfold receive_payload, write_to_file. unfold bind at 1, get_self at 1.
  change (reader (self (world_of connected_client (repeat block n))))
    with (Some reader_ref).
  rewrite (bind_run _ _ _ _ _
             (blocks_streamed n (Z.to_nat (1024 * Z.of_nat n)) TemporaryFile
                hash_new ltac:(lia))).
  reflexivity.
Qed.

(** The temporary file after [big_blocks] chunks. *)
Definition big_file : TmpFile :=
  {| file_data := [] ++ concat (repeat block_plain big_blocks) |}.

Lemma PFile_inj (a b : TmpFile) : PFile a = PFile b -> a = b.
Proof. intros Heq. inversion Heq. reflexivity. Qed.



(** C1, at a frame whose signature is cut short.  The stream ends after 10
    of the 2048 signature bytes; the iteration returns all the same, and the
    event is dispatched with a warning printed. *)
Lemma C1_short_signature_still_dispatched :
  len frame_view = 2144
  /\ len frame_cut = 106
  /\ process_incoming_event (world_of connected_client [frame_view])
     = (Returned tt,
        {| self := connected_client; reader_obj := [];
           writer_obj := {| written := []; closed := false |};
           stdout := [];
           futures := [{| task_fn := default_event;
                          task_arg := PBytes hi |}];
           connection_event_set := false |})
  /\ process_incoming_event (world_of connected_client [frame_cut])
     = (Returned tt,
        {| self := connected_client; reader_obj := [];
           writer_obj := {| written := []; closed := false |};
           stdout := ["something wrong with the signature"%string];
           futures := [{| task_fn := default_event;
                          task_arg := PBytes hi |}];
           connection_event_set := false |}).
Proof.
  split; [vm_compute; reflexivity|]. split; [vm_compute; reflexivity|].
  split; vm_compute; reflexivity.
Qed.

(** C2, at a handshake whose reads come back short.  With the key cut after
    10 of its 16 bytes, or with the length field cut after 3 of its 8 bytes,
    the handshake raises the [ValueError] of [import_key] and leaves
    [self.reader] set; it raises no [ConnectionError].  With a length field
    of 2 bytes followed by a whole key it even completes and sets the
    caller's event. *)
Lemma C2_short_handshake_reads_unchecked :
  len server_hello = 24
  /\ fst (handshake true (bytes_of [1; 2; 3; 4])
            (world_of fresh_client [take 18 server_hello]))
     = Raised ValueError
  /\ is_connected
       (self (snd (handshake true (bytes_of [1; 2; 3; 4])
                     (world_of fresh_client [take 18 server_hello]))))
     = true
  /\ fst (handshake true (bytes_of [1; 2; 3; 4])
            (world_of fresh_client [take 3 server_hello]))
     = Raised ValueError
  /\ fst (handshake true (bytes_of [1; 2; 3; 4])
            (world_of fresh_client [bytes_of [0; 16]; export public_key]))
     = Returned tt
  /\ connection_event_set
       (snd (handshake true (bytes_of [1; 2; 3; 4])
               (world_of fresh_client [bytes_of [0; 16]; export public_key])))
     = true.
Proof.
  split; [vm_compute; reflexivity|]. split; [vm_compute; reflexivity|].
  split; [vm_compute; reflexivity|]. split; [vm_compute; reflexivity|].
  split; vm_compute; reflexivity.
Qed.

End Concrete.

(** * Further properties of the client *)

(** ** Sending, terminating, connecting *)

Section Lifecycle.
Context `{Asyncio} `{EncryptorModule} `{PyLib}.

(** The world after [data] was written to the stream. *)
Definition with_written (data : bytes) (w : World) : World :=
  set_writer_obj
    (fun o => {| written := written o ++ data; closed := closed o |}) w.

Lemma with_written_app a b w :
  with_written b (with_written a w) = with_written (a ++ b) w.
Proof.
  destruct w as [c r [wr cl] out fs ev]. unfold with_written, set_writer_obj.
  simpl. rewrite app_assoc. reflexivity.
Qed.

Lemma self_writer_write_exact data w :
  writer (self w) = Some writer_ref ->
  self_writer_write data w = (Returned tt, with_written data w).
Proof.
  intros Hw. unfold self_writer_write, bind, get_self, stream_write.
  rewrite Hw. reflexivity.
Qed.

Lemma self_encrypt_run data iv w enc :
  encryptor (self w) = Some enc ->
  self_encrypt data iv w
  = (Returned (sym_encrypt (session_key enc) data iv), w).
Proof.
  intros Henc. unfold self_encrypt, bind, get_self, or_raise, ret.
  rewrite Henc. reflexivity.
Qed.

Lemma or_raise_run {A} (o : option A) e a w :
  o = Some a -> or_raise o e w = (Returned a, w).
Proof. intros ->. reflexivity. Qed.

Lemma write_signature_run digest w d signature :
  writer (self w) = Some writer_ref ->
  key_d (client_private_key (self w)) = Some d ->
  to_bytes 2048
    (pow (int_from_bytes digest) d (key_n (client_private_key (self w))))
  = Some signature ->
  write_signature digest w = (Returned tt, with_written signature w).
Proof.
  intros Hw Hd Hsig. unfold write_signature.
  unfold bind at 1, get_self at 1.
  rewrite (bind_run _ _ _ _ _ (or_raise_run _ _ _ w Hd)).
  rewrite (bind_run _ _ _ _ _ (or_raise_run _ _ _ w Hsig)).
  apply self_writer_write_exact. exact Hw.
Qed.

Lemma self_writer_drain_run w :
  writer (self w) = Some writer_ref ->
  self_writer_drain w = (Returned tt, w).
Proof.
  intros Hw. unfold self_writer_drain, bind, get_self, stream_drain.
  rewrite Hw. reflexivity.
Qed.

(** [send] on a client with a session: when the header length and the
    signature fit their fields, [send] returns, and all it does is append one
    frame to the stream: the IV, the encrypted 8-byte length of the
    encrypted header, the encrypted header declaring the length of the
    encrypted payload, the encrypted payload and the 2048-byte signature. *)
Theorem send_writes_one_frame (event : string) (data iv : bytes) (w : World)
    (enc : SymmetricEncryptor) (d : Z) (header_len signature : bytes) :
  let k := session_key enc in
  let encrypted_data := sym_encrypt k data iv in
  let encrypted_header :=
    sym_encrypt k (json_dumps event (len encrypted_data)) iv in
  reader (self w) = Some reader_ref ->
  writer (self w) = Some writer_ref ->
  encryptor (self w) = Some enc ->
  key_d (client_private_key (self w)) = Some d ->
  to_bytes 8 (len encrypted_header) = Some header_len ->
  to_bytes 2048
    (pow (int_from_bytes (sha512 data)) d
         (key_n (client_private_key (self w)))) = Some signature ->
  send event data iv w
  = (Returned tt,
     with_written
       (iv ++ sym_encrypt k header_len iv ++ encrypted_header
           ++ encrypted_data ++ signature) w).
Proof.
  intros k encrypted_data encrypted_header Hrd Hwr Henc Hd Hlen Hsig.
  unfold send. unfold bind at 1, get_self at 1.
  unfold is_connected. rewrite Hrd. cbn [negb].
  rewrite (bind_run _ _ _ _ _ (self_writer_write_exact iv w Hwr)).
  rewrite (bind_run _ _ _ _ _
             (self_encrypt_run data iv (with_written iv w) enc Henc)).
  rewrite (bind_run _ _ _ _ _
             (self_encrypt_run _ iv (with_written iv w) enc Henc)).
  rewrite (bind_run _ _ _ _ _ (or_raise_run _ _ _ _ Hlen)).
  rewrite (bind_run _ _ _ _ _
             (self_encrypt_run header_len iv (with_written iv w) enc Henc)).
  repeat match goal with
  | |- context [bind (self_writer_write ?x) ?f ?w0] =>
    rewrite (bind_run _ f w0 _ _ (self_writer_write_exact x w0 Hwr));
    rewrite with_written_app
  end.
  match goal with
  | |- context [bind (write_signature ?x) ?f ?w0] =>
    rewrite (bind_run _ f w0 _ _
               (write_signature_run x w0 d signature Hwr Hd Hsig));
    rewrite with_written_app
  end.
  match goal with
  | |- self_writer_drain ?w0 = _ => rewrite (self_writer_drain_run w0 Hwr)
  end.
  rewrite <- !app_assoc. reflexivity.
Qed.

(** [send] and [send_file] on a client that holds its streams but no
    session key (a handshake stopped before line 111): the IV is already on
    the stream when the missing encryptor raises [AttributeError]. *)
Theorem send_without_session_leaves_iv (event : string)
    (data path iv : bytes) (w : World) :
  reader (self w) = Some reader_ref ->
  writer (self w) = Some writer_ref ->
  encryptor (self w) = None ->
  send event data iv w = (Raised AttributeError, with_written iv w)
  /\ send_file event path iv w = (Raised AttributeError, with_written iv w).
Proof.
  intros Hrd Hwr Henc. split.
  - unfold send. unfold bind at 1, get_self at 1.
    unfold is_connected. rewrite Hrd. cbn [negb].
    rewrite (bind_run _ _ _ _ _ (self_writer_write_exact iv w Hwr)).
    apply bind_raised.
    unfold self_encrypt, bind, get_self, or_raise, raise.
    cbn [self with_written set_writer_obj]. rewrite Henc. reflexivity.
  - unfold send_file. unfold bind at 1, get_self at 1.
    unfold is_connected. rewrite Hrd. cbn [negb].
    rewrite (bind_run _ _ _ _ _ (self_writer_write_exact iv w Hwr)).
    apply bind_raised.
    unfold self_encrypt, bind, get_self, or_raise, raise.
    cbn [self with_written set_writer_obj]. rewrite Henc. reflexivity.
Qed.

Lemma register_all_streams regs : forall c,
  reader (register_all regs c) = reader c
  /\ writer (register_all regs c) = writer c
  /\ encryptor (register_all regs c) = encryptor c
  /\ server_public_key (register_all regs c) = server_public_key c
  /\ client_private_key (register_all regs c) = client_private_key c.
Proof.
  unfold register_all.
  induction regs as [|r regs IH]; intros c; simpl; [repeat split|].
  destruct (IH (event (fst (fst r)) (snd (fst r)) (snd r) c))
    as (-> & -> & -> & -> & ->).
  repeat split.
Qed.

(** A client that was constructed, whatever handlers were registered on it
    since, is not connected: [send] and [send_file] raise [ConnectionError]
    and [terminate] raises [AttributeError] (at [close], before any wait),
    each leaving the world as it was. *)
Theorem constructed_client_is_not_connected (name : string)
    (remote_host_address : string * Z) (keys : RsaKey * RsaKey)
    (regs : list (option string * DataMode * Func)) (w : World)
    (ev : string) (data path iv : bytes) (wait_closed : option Exception) :
  self w = register_all regs (Client_init name remote_host_address keys) ->
  is_connected (self w) = false
  /\ send ev data iv w = (Raised ConnectionError, w)
  /\ send_file ev path iv w = (Raised ConnectionError, w)
  /\ terminate wait_closed w = (Raised AttributeError, w).
Proof.
  intros Hself.
  destruct (register_all_streams regs
              (Client_init name remote_host_address keys))
    as (Hrd & Hwr & _).
  rewrite <- Hself in Hrd, Hwr.
  unfold Client_init, event, set_events in Hrd, Hwr.
  simpl in Hrd, Hwr.
  unfold is_connected, send, send_file, terminate, bind, get_self,
    stream_close, is_connected.
  rewrite Hrd, Hwr. repeat split.
Qed.

(** [terminate] on a client that holds its writer.  The writer is closed
    with nothing written and the peer's key is cleared, while the
    registration table and the session key stay.  What follows depends on
    [wait_closed()], which [terminate] does not guard.  When the wait
    returns, both stream references are cleared: the client is not
    connected, [send] and [send_file] raise [ConnectionError] and a second
    [terminate] raises [AttributeError], none of them changing the world
    any more.  When the wait raises, [terminate] raises the same exception
    and the client keeps its reader and its writer: it still counts as
    connected, to a stream that is closed. *)
Theorem terminate_disconnects (w : World) (wait_closed : option Exception)
    (event : string) (data path iv : bytes) :
  writer (self w) = Some writer_ref ->
  exists w',
    terminate wait_closed w
    = (match wait_closed with
       | None => Returned tt
       | Some e => Raised e
       end, w')
    /\ closed (writer_obj w') = true
    /\ written (writer_obj w') = written (writer_obj w)
    /\ server_public_key (self w') = None
    /\ events (self w') = events (self w)
    /\ encryptor (self w') = encryptor (self w)
    /\ match wait_closed with
       | None =>
         reader (self w') = None
         /\ writer (self w') = None
         /\ is_connected (self w') = false
         /\ send event data iv w' = (Raised ConnectionError, w')
         /\ send_file event path iv w' = (Raised ConnectionError, w')
         /\ (forall again, terminate again w' = (Raised AttributeError, w'))
       | Some e =>
         reader (self w') = reader (self w)
         /\ writer (self w') = Some writer_ref
         /\ is_connected (self w') = is_connected (self w)
       end.
Proof.
  intros Hwr. unfold terminate at 1, bind, get_self, stream_close,
    stream_wait_closed, modify_self.
  rewrite Hwr. cbn -[send send_file terminate]. rewrite Hwr.
  destruct wait_closed as [e|]; cbn -[send send_file terminate].
  - eexists. split; [reflexivity|]. cbn -[send send_file terminate].
    do 5 (split; [reflexivity|]). split; [reflexivity|].
    split; [exact Hwr | reflexivity].
  - eexists. split; [reflexivity|]. cbn -[send send_file terminate].
    do 8 (split; [reflexivity|]).
    unfold send, send_file, terminate, bind, get_self, is_connected,
      stream_close. cbn. repeat split.
Qed.

(** What a handshake that returns has done: it wrote the length of the
    client's exported key on 8 bytes, the key, the length of the encrypted
    session key on 8 bytes and the encrypted session key; it read 8 bytes of
    length and then that many bytes of key, without checking how many came
    back; it keeps the imported key as the peer's and the generated key as
    the session key, and sets the caller's event when one was given. *)
Theorem handshake_wire_format (connection_event : bool)
    (generated_key : bytes) (w w1 : World) :
  handshake connection_event generated_key w = (Returned tt, w1) ->
  let first := read 8 (reader_obj w) in
  let second := read (int_from_bytes (fst first)) (snd first) in
  let public_key := export_key (client_public_key (self w)) in
  exists server_key public_key_len enc_len,
    import_key (fst second) = Some server_key
    /\ to_bytes 8 (len public_key) = Some public_key_len
    /\ to_bytes 8 (len (asym_encrypt server_key generated_key))
       = Some enc_len
    /\ written (writer_obj w1)
       = written (writer_obj w) ++ public_key_len ++ public_key ++ enc_len
         ++ asym_encrypt server_key generated_key
    /\ closed (writer_obj w1) = closed (writer_obj w)
    /\ reader_obj w1 = snd second
    /\ server_public_key (self w1) = Some server_key
    /\ encryptor (self w1) = Some {| session_key := generated_key |}
    /\ connection_event_set w1
       = (connection_event || connection_event_set w).
Proof.
  cbv zeta.
  unfold handshake, bind, modify_self, get_self, or_raise, stream_write,
    stream_read, stream_drain, ret, raise, connection_event_set_now.
  cbn [self set_self set_reader set_writer client_public_key].
  destruct (to_bytes 8 (len (export_key (client_public_key (self w)))))
    as [pl|] eqn:Hpl; [|discriminate].
  cbn -[to_bytes int_from_bytes].
  destruct (import_key _) as [sk|] eqn:Hsk; [|discriminate].
  cbn -[to_bytes int_from_bytes].
  destruct (to_bytes 8 (len (asym_encrypt sk generated_key)))
    as [el|] eqn:Hel; [|discriminate].
  cbn -[to_bytes int_from_bytes].
  intros Hr. exists sk, pl, el.
  split; [reflexivity|]. split; [reflexivity|]. split; [exact Hel|].
  destruct connection_event; inversion Hr; subst;
    cbn -[to_bytes int_from_bytes]; rewrite <- !app_assoc; repeat split.
Qed.

(** A handshake that raises leaves the client holding both stream
    references with the writer open: [create_connection] raises the same
    exception before its [try] block is entered, so nothing is released and
    no handler is scheduled, and [is_connected] answers [True]. *)
Theorem failed_handshake_is_not_released (fuel : nat)
    (connection_event : bool) (generated_key : bytes) (w w1 : World)
    (e : Exception) :
  handshake connection_event generated_key w = (Raised e, w1) ->
  create_connection fuel connection_event generated_key w = (Raised e, w1)
  /\ is_connected (self w1) = true
  /\ writer (self w1) = Some writer_ref
  /\ closed (writer_obj w1) = closed (writer_obj w)
  /\ futures w1 = futures w.
Proof.
  intros Hh. split.
  { unfold create_connection. apply bind_raised. exact Hh. }
  revert Hh.
  unfold handshake, bind, modify_self, get_self, or_raise, stream_write,
    stream_read, stream_drain, ret, raise, connection_event_set_now.
  cbn [self set_self set_reader set_writer client_public_key].
  destruct (to_bytes 8 (len (export_key (client_public_key (self w)))));
    [|intros Hr; inversion Hr; subst; repeat split].
  cbn -[to_bytes int_from_bytes].
  destruct (import_key _);
    [|intros Hr; inversion Hr; subst; repeat split].
  cbn -[to_bytes int_from_bytes].
  destruct (to_bytes 8 _);
    [|intros Hr; inversion Hr; subst; repeat split].
  cbn -[to_bytes int_from_bytes].
  destruct connection_event; discriminate.
Qed.


End Lifecycle.

(** ** Files sent in chunks, and the registration table *)

(** The 1024-byte chunks [send_file] reads from a file, in order; [fuel]
    bounds their number as in the file loop. *)
Fixpoint chunks_of (fuel : nat) (f : bytes) : list bytes :=
  match fuel with
  | O => []
  | S fuel' =>
    match take 1024 f with
    | [] => []
    | data => data :: chunks_of fuel' (drop 1024 f)
    end
  end.

Definition chunks (f : bytes) : list bytes := chunks_of (S (length f)) f.

Section Chunks.
Context `{Asyncio} `{EncryptorModule} `{PyLib}.

Lemma chunks_of_concat fuel : forall f,
  (length f < fuel)%nat -> concat (chunks_of fuel f) = f.
Proof.
  induction fuel as [|fuel IH]; intros f Hlen; [lia|]. simpl.
  destruct (take 1024 f) as [|x data] eqn:Htake.
  - destruct f; [reflexivity | discriminate].
  - simpl. rewrite IH.
    + change (x :: data ++ drop 1024 f) with ((x :: data) ++ drop 1024 f).
      rewrite <- Htake. apply take_drop.
    + rewrite length_drop. destruct f; [discriminate|]. simpl in *. lia.
Qed.

Lemma chunks_of_sizes fuel : forall f,
  Forall (fun c => 0 < len c <= 1024) (chunks_of fuel f).
Proof.
  induction fuel as [|fuel IH]; intros f; simpl; [constructor|].
  destruct (take 1024 f) as [|x data] eqn:Htake; constructor; [|apply IH].
  rewrite <- Htake. unfold len. rewrite length_take.
  assert (length f <> 0%nat) by (destruct f; [discriminate | simpl; lia]).
  lia.
Qed.

(** The file loop writes one ciphertext per chunk, each under the same IV. *)
Lemma send_file_loop_chunks fuel : forall f file_hash iv w enc h' w',
  encryptor (self w) = Some enc ->
  send_file_loop fuel f file_hash iv w = (Returned h', w') ->
  wrote w w'
    (concat (map (fun c => sym_encrypt (session_key enc) c iv)
                 (chunks_of fuel f))).
Proof.
  induction fuel as [|fuel IH]; intros f file_hash iv w enc h' w' Henc Hr.
  - discriminate.
  - simpl in Hr. simpl. destruct (take 1024 f) as [|x data] eqn:Htake.
    + inversion Hr; subst. apply wrote_nil.
    + apply bind_returned in Hr as (c & w1 & Hc & Hr).
      apply self_encrypt_returned in Hc as [-> (enc' & Henc' & ->)].
      assert (enc' = enc) by congruence. subst enc'.
      apply bind_returned in Hr as (u & w1 & Hw & Hr).
      apply self_writer_write_returned in Hw.
      assert (Henc1 : encryptor (self w1) = Some enc).
      { destruct Hw as [-> _]. exact Henc. }
      apply (IH _ _ _ _ enc) in Hr; [|exact Henc1].
      simpl. eapply wrote_app; eassumption.
Qed.

(** All that [send_file] puts between the encrypted header and the signature
    is the file cut into chunks of 1024 bytes (the last one may be shorter),
    each chunk encrypted on its own under the IV of the frame; the chunks
    put together are the file.  For an empty file there is no chunk, so the
    signature follows the header at once, although the header declares 16
    bytes. *)
Theorem send_file_payload_in_chunks (event : string) (path iv : bytes)
    (w w' : World) :
  send_file event path iv w = (Returned tt, w') ->
  exists enc header_len signature,
    encryptor (self w) = Some enc
    /\ let k := session_key enc in
       written (writer_obj w')
       = written (writer_obj w) ++ iv ++ sym_encrypt k header_len iv
         ++ sym_encrypt k
              (json_dumps event (send_file_data_length (len path))) iv
         ++ concat (map (fun c => sym_encrypt k c iv) (chunks path))
         ++ signature
    /\ length signature = 2048%nat
    /\ concat (chunks path) = path
    /\ Forall (fun c => 0 < len c <= 1024) (chunks path)
    /\ (path = [] ->
        chunks path = [] /\ send_file_data_length (len path) = 16).
Proof.
  unfold send_file. intros Hr.
  apply bind_returned in Hr as (c & w1 & Hc & Hr).
  apply get_self_returned in Hc as [-> ->].
  destruct (is_connected (self w)); cbn [negb] in Hr; [|discriminate].
  apply bind_returned in Hr as (u1 & w1 & Hiv & Hr).
  apply self_writer_write_returned in Hiv.
  apply bind_returned in Hr as (eh & w2 & Heh & Hr).
  apply self_encrypt_returned in Heh as [-> (enc & Henc & ->)].
  apply bind_returned in Hr as (hl & w2 & Hhl & Hr).
  apply or_raise_returned in Hhl as [Hhl ->].
  apply bind_returned in Hr as (el & w2 & Hel & Hr).
  apply self_encrypt_returned in Hel as [-> (enc' & Henc' & ->)].
  assert (enc' = enc) by congruence. subst enc'.
  apply bind_returned in Hr as (u2 & w2 & Hw2 & Hr).
  apply self_writer_write_returned in Hw2.
  apply bind_returned in Hr as (u3 & w3 & Hw3 & Hr).
  apply self_writer_write_returned in Hw3.
  apply bind_returned in Hr as (fh & w4 & Hloop & Hr).
  assert (Hself1 : self w1 = self w) by apply Hiv.
  assert (Hself2 : self w2 = self w) by (destruct Hw2 as [-> _]; exact Hself1).
  assert (Hself3 : self w3 = self w) by (destruct Hw3 as [-> _]; exact Hself2).
  rewrite Hself1 in Henc.
  apply (send_file_loop_chunks _ _ _ _ _ enc) in Hloop as Hw4;
    [|rewrite Hself3; exact Henc].
  apply bind_returned in Hr as (u5 & w5 & Hsig & Hr).
  apply self_writer_drain_returned in Hr as ->.
  apply write_signature_returned in Hsig as (d & sg & Hd & Hsg & Hw5).
  pose proof (to_bytes_length _ _ _ Hsg) as Hlen.
  exists enc, hl, sg. split; [exact Henc|]. cbv zeta. split.
  { pose proof (wrote_app _ _ _ _ _ Hiv
                  (wrote_app _ _ _ _ _ Hw2
                     (wrote_app _ _ _ _ _ Hw3
                        (wrote_app _ _ _ _ _ Hw4 Hw5)))) as Hall.
    destruct Hall as (_ & _ & Hwr & _). exact Hwr. }
  split; [exact Hlen|]. split.
  { apply chunks_of_concat. lia. }
  split; [apply chunks_of_sizes|].
  intros ->. split; reflexivity.
Qed.

(** Registering a handler replaces what was registered under its name (the
    name given or, without one, the function's own) and leaves the entry of
    every other name, the stream references, the keys and the session key
    as they were; of several registrations under one name the last one
    stands. *)
Theorem registration_replaces_by_name
    (regs : list (option string * DataMode * Func)) (c : Client)
    (name : option string) (data_mode : DataMode) (func : Func)
    (k : string) :
  let event_name := default (func_name func) name in
  let c' := register_all (regs ++ [(name, data_mode, func)]) c in
  events c' !! k
  = (if decide (k = event_name)
     then Some (wrapper event_name func, data_mode)
     else events (register_all regs c) !! k)
  /\ reader c' = reader c
  /\ writer c' = writer c
  /\ encryptor c' = encryptor c
  /\ server_public_key c' = server_public_key c
  /\ client_private_key c' = client_private_key c.
Proof.
  intros event_name c'. split.
  - unfold c', register_all. rewrite fold_left_app. simpl.
    fold (register_all regs c). unfold event, set_events. simpl.
    assert (Hn : match name with
                 | Some n => n
                 | None => func_name func
                 end = event_name) by (destruct name; reflexivity).
    rewrite Hn, lookup_insert.
    destruct (decide (event_name = k)) as [Heq|Hne];
      destruct (decide (k = event_name)) as [Heq'|Hne'];
      try reflexivity;
      [ exfalso; apply Hne'; symmetry; exact Heq
      | exfalso; apply Hne; symmetry; exact Heq' ].
  - destruct (register_all_streams (regs ++ [(name, data_mode, func)]) c)
      as (? & ? & ? & ? & ?).
    repeat split; assumption.
Qed.

End Chunks.

(** ** More on the receive path *)

Section ReceiveMore.
Context `{Asyncio} `{EncryptorModule} `{PyLib}.

(** A body that leaves an observation [f] of the world as it was, for an
    observation that does not look at the reader. *)
Definition keeps {X A} (f : World -> X) (m : M A) : Prop :=
  forall w, f (snd (m w)) = f w.

Section Keeps.
Context {X : Type} (f : World -> X).
Hypothesis f_reader : forall r w, f (set_reader_obj r w) = f w.

Lemma keeps_bind {A B} (m : M A) (k : A -> M B) :
  keeps f m -> (forall a, keeps f (k a)) -> keeps f (bind m k).
Proof.
  intros Hm Hk w. unfold bind. specialize (Hm w).
  destruct (m w) as [[a| |] w1]; simpl in *; [|assumption|assumption].
  rewrite Hk. exact Hm.
Qed.

Lemma keeps_if {A} (b : bool) (m1 m2 : M A) :
  keeps f m1 -> keeps f m2 -> keeps f (if b then m1 else m2).
Proof. destruct b; auto. Qed.

Lemma keeps_ret {A} (a : A) : keeps f (ret a).
Proof. intros w. reflexivity. Qed.

Lemma keeps_raise {A} e : keeps f (@raise _ A e).
Proof. intros w. reflexivity. Qed.

Lemma keeps_or_raise {A} (o : option A) e : keeps f (or_raise o e).
Proof. intros w. destruct o; reflexivity. Qed.

Lemma keeps_get_self : keeps f get_self.
Proof. intros w. reflexivity. Qed.

Lemma keeps_stream_read r n : keeps f (stream_read r n).
Proof. intros w. destruct r as [[]|]; simpl; [apply f_reader | reflexivity]. Qed.

Lemma keeps_self_reader_read n : keeps f (self_reader_read n).
Proof.
  unfold self_reader_read. apply keeps_bind; [apply keeps_get_self|].
  intros c. apply keeps_stream_read.
Qed.

Lemma keeps_self_decrypt data iv : keeps f (self_decrypt data iv).
Proof.
  unfold self_decrypt. apply keeps_bind; [apply keeps_get_self|].
  intros c. apply keeps_bind; [apply keeps_or_raise|].
  intros enc. apply keeps_or_raise.
Qed.

Lemma keeps_write_to_file_loop fuel : forall file reader remaining iv h,
  keeps f (write_to_file_loop fuel file reader remaining iv h).
Proof.
  induction fuel as [|fuel IH]; intros file reader remaining iv h; simpl;
    destruct (remaining >? 0); try (intros w; reflexivity).
  apply keeps_bind; [apply keeps_stream_read|]. intros ed.
  apply keeps_if; [apply keeps_raise|].
  apply keeps_bind; [apply keeps_self_decrypt|]. intros data. apply IH.
Qed.

Lemma keeps_read_frame_header : keeps f read_frame_header.
Proof.
  unfold read_frame_header.
  apply keeps_bind; [apply keeps_self_reader_read|]. intros iv.
  apply keeps_if; [apply keeps_raise|].
  apply keeps_bind; [apply keeps_self_reader_read|]. intros field.
  apply keeps_if; [apply keeps_raise|].
  apply keeps_bind; [apply keeps_self_decrypt|]. intros data.
  apply keeps_bind; [apply keeps_self_reader_read|]. intros header.
  apply keeps_if; [apply keeps_raise|].
  apply keeps_bind; [apply keeps_self_decrypt|]. intros plain.
  apply keeps_bind; [apply keeps_or_raise|]. intros hdr.
  apply keeps_ret.
Qed.

Lemma keeps_receive_payload data_mode data_len iv :
  keeps f (receive_payload data_mode data_len iv).
Proof.
  unfold receive_payload. destruct data_mode.
  - apply keeps_bind; [apply keeps_get_self|]. intros c.
    apply keeps_bind; [apply keeps_write_to_file_loop|]. intros r.
    apply keeps_ret.
  - apply keeps_bind; [apply keeps_self_reader_read|]. intros b.
    apply keeps_if; [apply keeps_raise|].
    apply keeps_bind; [apply keeps_self_decrypt|]. intros plain.
    apply keeps_ret.
Qed.

End Keeps.

(** The chunk loop appends the plaintext of its chunks to the file and feeds
    the same bytes to the hash object. *)
Lemma write_to_file_loop_appends fuel :
  forall file reader remaining iv h w digest file' w',
  write_to_file_loop fuel file reader remaining iv h w
  = (Returned (digest, file'), w') ->
  exists plain,
    file_data file' = file_data file ++ plain
    /\ digest = sha512 (fed h ++ plain).
Proof.
  induction fuel as [|fuel IH];
    intros file reader remaining iv h w digest file' w' Hr; simpl in Hr;
    destruct (remaining >? 0).
  - discriminate.
  - inversion Hr; subst. exists []. rewrite !app_nil_r. auto.
  - apply bind_returned in Hr as (ed & w1 & _ & Hr).
    destruct (negb (len ed =? Z.min remaining CHUNK)); [discriminate|].
    apply bind_returned in Hr as (data & w2 & _ & Hr).
    apply IH in Hr as (plain & Hfile & Hdigest). simpl in Hfile, Hdigest.
    exists (data ++ plain). rewrite !app_assoc. auto.
  - inversion Hr; subst. exists []. rewrite !app_nil_r. auto.
Qed.

(** [write_to_file] that returns has appended to the file exactly the
    plaintext whose SHA-512 digest it returns, whatever the file held
    before; it has written nothing to the stream, scheduled nothing and
    printed nothing, and the client object is as it was. *)
Theorem write_to_file_appends_what_it_hashes (file file' : TmpFile)
    (reader : option ReaderRef) (data_len : Z) (iv digest : bytes)
    (w w' : World) :
  write_to_file file reader data_len iv w = (Returned (digest, file'), w') ->
  (exists plain,
      file_data file' = file_data file ++ plain
      /\ digest = sha512 plain)
  /\ self w' = self w
  /\ writer_obj w' = writer_obj w
  /\ futures w' = futures w
  /\ stdout w' = stdout w.
Proof.
  unfold write_to_file. intros Hr. split.
  { apply write_to_file_loop_appends in Hr as (plain & Hfile & Hdigest).
    exists plain. auto. }
  pose proof (fun X (f : World -> X) Hf =>
                keeps_write_to_file_loop f Hf (Z.to_nat data_len) file reader
                  data_len iv hash_new w) as Hk.
  rewrite Hr in Hk. simpl in Hk.
  split; [apply (Hk _ self); reflexivity|].
  split; [apply (Hk _ writer_obj); reflexivity|].
  split; [apply (Hk _ futures); reflexivity | apply (Hk _ stdout); reflexivity].
Qed.

(** A declared length below zero is treated differently by the two modes:
    the buffered path raises [ConnectionError], since no read has a negative
    length, while the streamed path reads nothing and hands on an empty
    temporary file with the digest of the empty string. *)
Theorem negative_length_by_mode (data_len : Z) (iv : bytes) (w : World) :
  data_len < 0 ->
  reader (self w) = Some reader_ref ->
  fst (receive_payload BYTES data_len iv w) = Raised ConnectionError
  /\ receive_payload FILE data_len iv w
     = (Returned (PFile TemporaryFile, sha512 []), w).
Proof.
  intros Hneg Hrd. split.
  - apply short_payload_raises; [exact Hrd|]. unfold len. lia.
  - unfold receive_payload, write_to_file, bind, get_self.
    destruct (Z.to_nat data_len); simpl;
      destruct (data_len >? 0) eqn:Hgt; try lia; reflexivity.
Qed.

(** A header that [_process_incoming_events] accepts was read exactly: 16
    bytes of IV, 16 bytes that decrypt to the length field, and as many
    bytes as the whole decrypted field says as a big-endian integer, which
    decrypt to the JSON text the event name and the declared length come
    from.  Nothing but the reader has moved. *)
Theorem accepted_header_was_read_exactly (w w' : World) (iv : bytes)
    (event : string) (data_len : Z) :
  read_frame_header w = (Returned (iv, (event, data_len)), w') ->
  let r1 := read 16 (reader_obj w) in
  let r2 := read 16 (snd r1) in
  exists enc length_field header,
    let r3 := read (int_from_bytes length_field) (snd r2) in
    encryptor (self w) = Some enc
    /\ iv = fst r1
    /\ len iv = 16
    /\ len (fst r2) = 16
    /\ sym_decrypt (session_key enc) (fst r2) iv = Some length_field
    /\ len (fst r3) = int_from_bytes length_field
    /\ sym_decrypt (session_key enc) (fst r3) iv = Some header
    /\ json_loads header = Some (event, data_len)
    /\ w' = set_reader_obj (snd r3) w.
Proof.
  intros Hr r1 r2. unfold read_frame_header in Hr.
  apply bind_returned in Hr as (iv' & w1 & Hiv & Hr).
  apply self_reader_read_returned in Hiv as (Hrd & -> & ->). fold r1 in Hr.
  destruct (len (fst r1) =? 16) eqn:Hl1; [|discriminate]. cbn [negb] in Hr.
  apply bind_returned in Hr as (f' & w2 & Hf & Hr).
  apply self_reader_read_returned in Hf as (_ & -> & ->).
  cbn [reader_obj set_reader_obj] in Hr. fold r2 in Hr.
  destruct (len (fst r2) =? 16) eqn:Hl2; [|discriminate]. cbn [negb] in Hr.
  apply bind_returned in Hr as (field & w3 & Hd & Hr).
  apply self_decrypt_returned in Hd as (-> & enc & Henc & Hdec).
  apply bind_returned in Hr as (h' & w4 & Hh & Hr).
  apply self_reader_read_returned in Hh as (_ & -> & ->).
  cbn [reader_obj set_reader_obj] in Hr.
  destruct (len _ =? int_from_bytes field) eqn:Hl3; [|discriminate].
  cbn [negb] in Hr.
  apply bind_returned in Hr as (header & w5 & Hd2 & Hr).
  apply self_decrypt_returned in Hd2 as (-> & enc' & Henc' & Hdec2).
  apply bind_returned in Hr as (hdr & w6 & Hj & Hr).
  apply or_raise_returned in Hj as [Hj ->].
  inversion Hr; subst. cbn [self set_reader_obj] in Henc, Henc'.
  assert (enc' = enc) by congruence. subst enc'.
  exists enc, field, header. cbv zeta.
  split; [exact Henc|]. split; [reflexivity|].
  split; [apply Z.eqb_eq; exact Hl1|]. split; [apply Z.eqb_eq; exact Hl2|].
  split; [exact Hdec|]. split; [apply Z.eqb_eq; exact Hl3|].
  split; [exact Hdec2|]. split; [exact Hj | reflexivity].
Qed.

End ReceiveMore.

(** ** What the receive loop does to the world *)

Section ReceiveLoop.
Context `{Asyncio} `{EncryptorModule} `{PyLib}.

(** The line printed on a signature that does not match. *)
Definition signature_warning : string := "something wrong with the signature".

(** A coroutine function the loop may dispatch for a client: the default
    no-op or one stored in the registration table. *)
Definition dispatchable (c : Client) (fn : AsyncFn) : Prop :=
  fn = default_event
  \/ exists (event : string) (data_mode : DataMode),
       events c !! event = Some (fn, data_mode).

Lemma lookup_event_dispatchable c (event : string) data_len :
  dispatchable c (fst (lookup_event c event data_len)).
Proof.
  unfold lookup_event, dispatchable.
  destruct (events c !! event) as [[fn mode]|] eqn:Hl; simpl.
  - right. exists event, mode. exact Hl.
  - left. reflexivity.
Qed.

(** The last step of an iteration: one coroutine scheduled, after at most
    one warning; nothing at all when it raises. *)
Lemma verify_and_dispatch_outcome fn buffer hsh w o w' :
  verify_and_dispatch fn buffer hsh w = (o, w') ->
  match o with
  | Returned _ =>
    futures w' = futures w ++ [{| task_fn := fn; task_arg := buffer |}]
    /\ (stdout w' = stdout w \/ stdout w' = stdout w ++ [signature_warning])
  | _ => futures w' = futures w /\ stdout w' = stdout w
  end.
Proof.
  unfold verify_and_dispatch, self_reader_read, bind, get_self, stream_read,
    or_raise, ret, raise, print, ensure_future.
  destruct (reader (self w)) as [[]|]; simpl.
  - destruct (server_public_key (self w)); simpl.
    + destruct (negb _); intros Hr; inversion Hr; subst; simpl; auto.
    + intros Hr; inversion Hr; subst; auto.
  - intros Hr; inversion Hr; subst; auto.
Qed.

(** One iteration of the loop: when it returns it has scheduled exactly one
    coroutine, of a function that is the default one or comes from the
    table, and printed at most the warning; when it raises it has scheduled
    and printed nothing. *)
Lemma iteration_outcome w o w' :
  process_incoming_event w = (o, w') ->
  match o with
  | Returned _ =>
    exists task out,
      futures w' = futures w ++ [task]
      /\ dispatchable (self w) (task_fn task)
      /\ stdout w' = stdout w ++ out
      /\ (out = [] \/ out = [signature_warning])
  | _ => futures w' = futures w /\ stdout w' = stdout w
  end.
Proof.
  unfold process_incoming_event. unfold bind at 1.
  pose proof (keeps_read_frame_header futures ltac:(reflexivity) w) as Hf1.
  pose proof (keeps_read_frame_header stdout ltac:(reflexivity) w) as Ho1.
  pose proof (keeps_read_frame_header self ltac:(reflexivity) w) as Hs1.
  destruct (read_frame_header w) as [[hdr| |] w1]; simpl in Hf1, Ho1, Hs1;
    [|intros Hr; inversion Hr; subst; auto..].
  unfold bind at 1, get_self at 1. unfold bind at 1.
  set (entry := lookup_event (self w1) (fst (snd hdr)) (snd (snd hdr))).
  pose proof (keeps_receive_payload futures ltac:(reflexivity)
                (snd entry) (snd (snd hdr)) (fst hdr) w1) as Hf2.
  pose proof (keeps_receive_payload stdout ltac:(reflexivity)
                (snd entry) (snd (snd hdr)) (fst hdr) w1) as Ho2.
  destruct (receive_payload (snd entry) (snd (snd hdr)) (fst hdr) w1)
    as [[r| |] w2]; simpl in Hf2, Ho2;
    [|intros Hr; inversion Hr; subst; split; congruence..].
  intros Hr. apply verify_and_dispatch_outcome in Hr.
  destruct o as [u| |].
  - destruct Hr as [Hf [Ho|Ho]].
    + exists {| task_fn := fst entry; task_arg := fst r |}, [].
      split; [congruence|]. split.
      { simpl. rewrite <- Hs1. apply lookup_event_dispatchable. }
      rewrite app_nil_r. split; [congruence | left; reflexivity].
    + exists {| task_fn := fst entry; task_arg := fst r |},
             [signature_warning].
      split; [congruence|]. split.
      { simpl. rewrite <- Hs1. apply lookup_event_dispatchable. }
      split; [congruence | right; reflexivity].
  - destruct Hr. split; congruence.
  - destruct Hr. split; congruence.
Qed.

(** Whatever arrives, and for however many frames, the receive loop only
    reads: it never writes to the stream or closes it and never changes the
    client object (table, keys, stream references).  It schedules at most
    one coroutine per iteration, each of a function that is the default one
    or comes from the registration table, and prints nothing but signature
    warnings, at most one per coroutine scheduled. *)
Theorem receive_loop_effects (fuel : nat) (w : World) :
  exists tasks out,
    let w' := snd (process_incoming_events fuel w) in
    futures w' = futures w ++ tasks
    /\ stdout w' = stdout w ++ out
    /\ Forall (fun t => dispatchable (self w) (task_fn t)) tasks
    /\ Forall (fun line => line = signature_warning) out
    /\ (length out <= length tasks <= fuel)%nat
    /\ self w' = self w
    /\ writer_obj w' = writer_obj w
    /\ connection_event_set w' = connection_event_set w.
Proof.
  revert w. induction fuel as [|fuel IH]; intros w.
  - exists [], []. simpl. rewrite !app_nil_r. repeat split; auto.
  - simpl. unfold bind.
    pose proof (receiving_process_incoming_event w) as Hrec.
    destruct (process_incoming_event w) as [o w1] eqn:Hit.
    pose proof (iteration_outcome _ _ _ Hit) as Hout.
    destruct Hrec as (Hs & Hw & Hc & _). simpl in Hs, Hw, Hc.
    destruct o as [u| |].
    + destruct Hout as (task & out1 & Hf1 & Hd1 & Ho1 & Hcases).
      destruct (IH w1) as (tasks & out & Hf & Ho & Hd & Hlines & Hlen
                           & Hs2 & Hw2 & Hc2).
      cbv zeta in *.
      exists (task :: tasks), (out1 ++ out).
      split; [rewrite Hf, Hf1, <- app_assoc; reflexivity|].
      split; [rewrite Ho, Ho1, <- app_assoc; reflexivity|].
      split.
      { constructor; [exact Hd1|]. rewrite <- Hs. exact Hd. }
      split.
      { apply Forall_app. split; [|exact Hlines].
        destruct Hcases as [-> | ->]; repeat constructor. }
      split.
      { rewrite length_app. simpl.
        destruct Hcases as [-> | ->]; simpl; lia. }
      split; [congruence|]. split; congruence.
    + destruct Hout as [Hf1 Ho1]. exists [], []. simpl.
      rewrite !app_nil_r. repeat split; auto; lia.
    + destruct Hout as [Hf1 Ho1]. exists [], []. simpl.
      rewrite !app_nil_r. repeat split; auto; lia.
Qed.

(** The reads the loop checks: a short read of the IV or of the length
    field ends the iteration with [ConnectionError] and nothing dispatched;
    so does, at its stage, a short read of the header, of a buffered
    payload or of the first chunk of a streamed one. *)
Theorem short_reads_end_the_iteration (w : World) :
  reader (self w) = Some reader_ref ->
  let r1 := read 16 (reader_obj w) in
  let r2 := read 16 (snd r1) in
  (len (fst r1) <> 16 \/ (len (fst r1) = 16 /\ len (fst r2) <> 16) ->
   exists w',
     process_incoming_event w = (Raised ConnectionError, w')
     /\ futures w' = futures w)
  /\ (forall enc length_field,
        encryptor (self w) = Some enc ->
        len (fst r1) = 16 ->
        len (fst r2) = 16 ->
        sym_decrypt (session_key enc) (fst r2) (fst r1) = Some length_field ->
        len (fst (read (int_from_bytes length_field) (snd r2)))
        <> int_from_bytes length_field ->
        fst (process_incoming_event w) = Raised ConnectionError)
  /\ (forall data_len iv,
        len (fst (read data_len (reader_obj w))) <> data_len ->
        fst (receive_payload BYTES data_len iv w) = Raised ConnectionError)
  /\ (forall data_len iv,
        0 < data_len ->
        len (fst (read (Z.min data_len CHUNK) (reader_obj w)))
        <> Z.min data_len CHUNK ->
        fst (receive_payload FILE data_len iv w) = Raised ConnectionError).
Proof.
  intros Hrd r1 r2.
  assert (Hhead : fst (read_frame_header w) = Raised ConnectionError ->
            exists w',
              process_incoming_event w = (Raised ConnectionError, w')
              /\ futures w' = futures w).
  { intros Hh. destruct (read_frame_header w) as [o w1] eqn:Hrun.
    simpl in Hh. subst o. exists w1.
    assert (Hit : process_incoming_event w = (Raised ConnectionError, w1)).
    { unfold process_incoming_event. apply bind_raised. exact Hrun. }
    split; [exact Hit|]. exact (raised_before_dispatch _ _ _ Hit). }
  split; [|split; [|split]].
  - intros [Hiv | [Hiv Hfield]]; apply Hhead.
    + apply short_iv_raises; assumption.
    + apply short_length_field_raises; assumption.
  - intros enc length_field Henc Hiv Hfield Hdec Hshort.
    destruct (Hhead (short_header_raises w enc length_field Hrd Henc Hiv
                       Hfield Hdec Hshort)) as (w' & -> & _).
    reflexivity.
  - intros data_len iv Hshort. apply short_payload_raises; assumption.
  - intros data_len iv Hpos Hshort.
    unfold receive_payload, write_to_file. unfold bind at 1, get_self at 1.
    rewrite Hrd.
    destruct (Z.to_nat data_len) as [|fuel] eqn:Hfuel; [lia|].
    pose proof (short_chunk_raises fuel TemporaryFile data_len iv hash_new w
                  Hpos Hshort) as Hraise.
    unfold bind.
    destruct (write_to_file_loop (S fuel) TemporaryFile (Some reader_ref)
                data_len iv hash_new w) as [o w1].
    simpl in Hraise. subst o. reflexivity.
Qed.

End ReceiveLoop.

(** ** A frame sent is a frame received *)

Section RoundTrip.
Context `{Asyncio} `{EncryptorModule} `{PyLib}.

(** [feeds r b]: the bytes [b] are the next ones to arrive on [r], and a
    read of up to that many bytes returns just the bytes asked for. *)
Inductive feeds : StreamReader -> bytes -> Prop :=
| feeds_intro (r : StreamReader) (b : bytes) :
    read 0 r = ([], r) ->
    (forall n, 0 < n <= len b -> fst (read n r) = take (Z.to_nat n) b) ->
    (forall n, 0 < n <= len b ->
       feeds (snd (read n r)) (drop (Z.to_nat n) b)) ->
    feeds r b.

Lemma feeds_read r a b :
  feeds r (a ++ b) ->
  fst (read (len a) r) = a /\ feeds (snd (read (len a) r)) b.
Proof.
  intros Hf. inversion Hf as [r0 b0 Hzero Htake Hdrop]; subst.
  destruct a as [|x a].
  - change (len []) with 0. rewrite Hzero. split; [reflexivity|exact Hf].
  - assert (Hn : 0 < len (x :: a) <= len ((x :: a) ++ b)).
    { unfold len. rewrite length_app. simpl. lia. }
    pose proof (Htake _ Hn) as Hfst. pose proof (Hdrop _ Hn) as Hsnd.
    unfold len in Hfst, Hsnd. rewrite Nat2Z.id in Hfst, Hsnd.
    rewrite take_app_length in Hfst. rewrite drop_app_length in Hsnd.
    auto.
Qed.

Lemma self_reader_read_feeds (a b : bytes) w :
  reader (self w) = Some reader_ref ->
  feeds (reader_obj w) (a ++ b) ->
  exists w',
    self_reader_read (len a) w = (Returned a, w')
    /\ self w' = self w
    /\ feeds (reader_obj w') b
    /\ stdout w' = stdout w /\ futures w' = futures w
    /\ writer_obj w' = writer_obj w.
Proof.
  intros Hrd Hf. destruct (feeds_read _ _ _ Hf) as [Hfst Hsnd].
  rewrite (self_reader_read_run _ _ Hrd). rewrite Hfst.
  eexists. split; [reflexivity|]. simpl. auto.
Qed.

(** What [send] puts on the wire is what one iteration of the receive loop
    takes off it.  For a cipher that decrypts what it encrypted and pads an
    8-byte field to one block, a header that [json.loads] reads back, and a
    receiver that holds the same session key and reads the event in the
    buffered mode: the iteration returns, dispatches the coroutine found
    under the event name with the very bytes that were sent, leaves the
    stream at the first byte after the frame, and prints the warning exactly
    when the receiver's public key does not recover the digest from the
    sender's signature. *)
Theorem sent_frame_is_received (event : string) (data iv rest : bytes)
    (ws ws' wr : World) (enc : SymmetricEncryptor) (d : Z)
    (server_key : RsaKey) (frame : bytes) :
  let k := session_key enc in
  let encrypted_data := sym_encrypt k data iv in
  let entry := lookup_event (self wr) event (len encrypted_data) in
  let hsh := int_from_bytes (sha512 data) in
  let signed := pow hsh d (key_n (client_private_key (self ws))) in
  send event data iv ws = (Returned tt, ws') ->
  written (writer_obj ws') = written (writer_obj ws) ++ frame ->
  encryptor (self ws) = Some enc ->
  key_d (client_private_key (self ws)) = Some d ->
  len iv = 16 ->
  (forall x, len x = 8 -> len (sym_encrypt k x iv) = 16) ->
  (forall x, sym_decrypt k (sym_encrypt k x iv) iv = Some x) ->
  json_loads (json_dumps event (len encrypted_data))
  = Some (event, len encrypted_data) ->
  reader (self wr) = Some reader_ref ->
  encryptor (self wr) = Some enc ->
  server_public_key (self wr) = Some server_key ->
  snd entry = BYTES ->
  feeds (reader_obj wr) (frame ++ rest) ->
  exists wr',
    process_incoming_event wr = (Returned tt, wr')
    /\ futures wr'
       = futures wr ++ [{| task_fn := fst entry; task_arg := PBytes data |}]
    /\ stdout wr'
       = stdout wr
         ++ (if hsh =? pow signed (key_e server_key) (key_n server_key)
             then [] else [signature_warning])
    /\ feeds (reader_obj wr') rest
    /\ self wr' = self wr
    /\ writer_obj wr' = writer_obj wr.
Proof.
  intros k encrypted_data entry hsh signed Hsend Hframe Henc Hd Hiv Hblock
    Hcipher Hjson Hrd Henc' Hkey Hmode Hfeeds.
  destruct (send_returned _ _ _ _ _ Hsend)
    as (enc0 & header_len & d0 & signature & Henc0 & Hd0 & Hsig & Hlen & Hwr).
  rewrite Henc in Henc0. inversion Henc0; subst enc0. clear Henc0.
  rewrite Hd in Hd0. inversion Hd0; subst d0. clear Hd0.
  cbv zeta in Hlen, Hwr. fold k in Hlen, Hwr. fold encrypted_data in Hlen, Hwr.
  destruct Hwr as (_ & _ & Hwritten & _).
  rewrite Hframe in Hwritten. apply app_inv_head in Hwritten. subst frame.
  set (header := json_dumps event (len encrypted_data)) in *.
  set (encrypted_header := sym_encrypt k header iv) in *.
  pose proof (to_bytes_length _ _ _ Hlen) as Hl8.
  pose proof (int_from_bytes_to_bytes _ _ _ Hlen) as Hint8.
  pose proof (to_bytes_length _ _ _ Hsig) as Hl2048.
  pose proof (int_from_bytes_to_bytes _ _ _ Hsig) as Hintsig.
  assert (Hfield : len (sym_encrypt k header_len iv) = 16).
  { apply Hblock. unfold len. rewrite Hl8. reflexivity. }
  rewrite <- !app_assoc in Hfeeds.
  (* the IV *)
  destruct (self_reader_read_feeds _ _ _ Hrd Hfeeds)
    as (w1 & Hr1 & Hs1 & Hf1 & Ho1 & Hfu1 & Hw1).
  rewrite Hiv in Hr1.
  (* the length field *)
  assert (Hrd1 : reader (self w1) = Some reader_ref) by congruence.
  destruct (self_reader_read_feeds _ _ _ Hrd1 Hf1)
    as (w2 & Hr2 & Hs2 & Hf2 & Ho2 & Hfu2 & Hw2).
  rewrite Hfield in Hr2.
  (* the header *)
  assert (Hrd2 : reader (self w2) = Some reader_ref) by congruence.
  assert (Henc2 : encryptor (self w2) = Some enc) by congruence.
  destruct (self_reader_read_feeds _ _ _ Hrd2 Hf2)
    as (w3 & Hr3 & Hs3 & Hf3 & Ho3 & Hfu3 & Hw3).
  assert (Hrd3 : reader (self w3) = Some reader_ref) by congruence.
  assert (Henc3 : encryptor (self w3) = Some enc) by congruence.
  (* the payload *)
  destruct (self_reader_read_feeds _ _ _ Hrd3 Hf3)
    as (w4 & Hr4 & Hs4 & Hf4 & Ho4 & Hfu4 & Hw4).
  assert (Hrd4 : reader (self w4) = Some reader_ref) by congruence.
  assert (Henc4 : encryptor (self w4) = Some enc) by congruence.
  assert (Hkey4 : server_public_key (self w4) = Some server_key)
    by congruence.
  (* the signature *)
  destruct (feeds_read _ _ _ Hf4) as [Hsigread Hf5].
  assert (H2048 : len signature = 2048).
  { unfold len. rewrite Hl2048. reflexivity. }
  rewrite H2048 in Hsigread, Hf5.
  destruct (verify_and_dispatch_run (fst entry) (PBytes data) (sha512 data)
              server_key w4 Hrd4 Hkey4)
    as (w5 & Hr5 & Hs5 & Hw5 & Hro5 & Hfu5 & Ho5).
  exists w5. split.
  - unfold process_incoming_event.
    assert (Hhdr : read_frame_header wr
                   = (Returned (iv, (event, len encrypted_data)), w3)).
    { unfold read_frame_header.
      rewrite (bind_run _ _ _ _ _ Hr1). rewrite Hiv. cbn [Z.eqb Pos.eqb negb].
      rewrite (bind_run _ _ _ _ _ Hr2). rewrite Hfield.
      cbn [Z.eqb Pos.eqb negb].
      rewrite (bind_run _ _ _ _ _
                 (self_decrypt_run _ _ _ _ _ Henc2 (Hcipher header_len))).
      rewrite Hint8.
      rewrite (bind_run _ _ _ _ _ Hr3). rewrite Z.eqb_refl. cbn [negb].
      rewrite (bind_run _ _ _ _ _
                 (self_decrypt_run _ _ _ _ _ Henc3 (Hcipher header))).
      rewrite Hjson. reflexivity. }
    rewrite (bind_run _ _ _ _ _ Hhdr). cbn [fst snd].
    unfold bind at 1, get_self at 1.
    assert (Hentry : lookup_event (self w3) event (len encrypted_data) = entry)
      by (unfold entry; congruence).
    rewrite Hentry, Hmode.
    assert (Hpay : receive_payload BYTES (len encrypted_data) iv w3
                   = (Returned (PBytes data, sha512 data), w4)).
    { unfold receive_payload.
      rewrite (bind_run _ _ _ _ _ Hr4). rewrite Z.eqb_refl. cbn [negb].
      rewrite (bind_run _ _ _ _ _
                 (self_decrypt_run _ _ _ _ _ Henc4 (Hcipher data))).
      reflexivity. }
    rewrite (bind_run _ _ _ _ _ Hpay). cbn [fst snd]. exact Hr5.
  - split; [rewrite Hfu5; congruence|].
    split.
    { rewrite Ho5, Hsigread, Hintsig.
      replace (stdout w4) with (stdout wr) by congruence. reflexivity. }
    split; [rewrite Hro5; exact Hf5|].
    split; congruence.
Qed.

End RoundTrip.

(** ** A handler registered for the streamed mode *)

Section StreamedHandlers.
Context `{Asyncio} `{EncryptorModule} `{PyLib}.

(** The streamed mode hands over a temporary file, whatever was received. *)
Lemma receive_payload_file data_len iv w r w' :
  receive_payload FILE data_len iv w = (Returned r, w') ->
  exists file, fst r = PFile file.
Proof.
  unfold receive_payload. intros Hr.
  apply bind_returned in Hr as (c & w1 & _ & Hr).
  apply bind_returned in Hr as (res & w2 & _ & Hr).
  inversion Hr. exists (snd res). reflexivity.
Qed.

(** A frame for an event registered with [DataMode.FILE] is dispatched with
    a temporary file as its payload, never with bytes.  A handler
    registered that way under the reserved name [message] is therefore never
    called: its wrapper asks the file for [decode] and raises
    [AttributeError]; under a name that is not reserved the handler is
    called with the file. *)
Theorem streamed_frame_hands_over_a_file (w w1 w' : World) (iv : bytes)
    (event name : string) (data_len : Z) (func : Func) :
  read_frame_header w = (Returned (iv, (event, data_len)), w1) ->
  events (self w) !! event = Some (wrapper name func, FILE) ->
  process_incoming_event w = (Returned tt, w') ->
  exists file,
    futures w'
    = futures w ++ [{| task_fn := wrapper name func; task_arg := PFile file |}]
    /\ (name = "message"%string ->
        await_call (wrapper name func) (PFile file) = Raised AttributeError)
    /\ (name <> "connect"%string -> name <> "disconnect"%string ->
        name <> "pong"%string -> name <> "message"%string ->
        await_call (wrapper name func) (PFile file)
        = Returned (Call func [AData (PFile file)])).
Proof.
  intros Hh Hev Hr.
  rewrite (process_incoming_event_after_header _ _ _ _ _ Hh) in Hr.
  assert (Hentry : lookup_event (self w) event data_len
                   = (wrapper name func, FILE)).
  { unfold lookup_event. rewrite Hev. reflexivity. }
  rewrite Hentry in Hr. cbn [fst snd] in Hr.
  apply bind_returned in Hr as (r & w2 & Hp & Hr).
  destruct (receive_payload_file _ _ _ _ _ Hp) as [file Hfile].
  rewrite Hfile in Hr.
  apply verify_and_dispatch_outcome in Hr as [Hf _].
  pose proof (keeps_read_frame_header futures ltac:(reflexivity) w) as Hk1.
  rewrite Hh in Hk1. cbn [snd] in Hk1.
  pose proof (keeps_receive_payload futures ltac:(reflexivity)
                FILE data_len iv w1) as Hk2.
  rewrite Hp in Hk2. cbn [snd] in Hk2.
  exists file. split; [congruence|]. split.
  - intros ->. reflexivity.
  - intros Hn1 Hn2 Hn3 Hn4. unfold await_call, reserved_events.
    rewrite !lookup_insert_ne by congruence. reflexivity.
Qed.

End StreamedHandlers.

(** ** [str.encode()] and [edit_file] *)

(** The UTF-8 bytes of one code point; [None] is the [UnicodeEncodeError]
    Python raises for a surrogate, the only code points of a [str] that have
    no encoding. *)
Definition utf8_encode_point (c : Z) : option (list Z) :=
  if (c <? 0) || (1114111 <? c) then None
  else if c <? 128 then Some [c]
  else if c <? 2048 then Some [192 + c / 64; 128 + c mod 64]
  else if (55296 <=? c) && (c <=? 57343) then None
  else if c <? 65536
  then Some [224 + c / 4096; 128 + (c / 64) mod 64; 128 + c mod 64]
  else Some [240 + c / 262144; 128 + (c / 4096) mod 64;
             128 + (c / 64) mod 64; 128 + c mod 64].

Fixpoint utf8_encode (s : text) : option (list Z) :=
  match s with
  | [] => Some []
  | c :: s' =>
    match utf8_encode_point c, utf8_encode s' with
    | Some b, Some r => Some (b ++ r)
    | _, _ => None
    end
  end.

(** [s.encode()] *)
Definition encode (s : text) : option bytes := bytes_of <$> utf8_encode s.

Lemma utf8_encode_point_cases c b :
  utf8_encode_point c = Some b ->
  (0 <= c < 128 /\ b = [c])
  \/ (128 <= c < 2048 /\ b = [192 + c / 64; 128 + c mod 64])
  \/ ((2048 <= c < 55296 \/ 57343 < c < 65536)
      /\ b = [224 + c / 4096; 128 + (c / 64) mod 64; 128 + c mod 64])
  \/ (65536 <= c <= 1114111
      /\ b = [240 + c / 262144; 128 + (c / 4096) mod 64;
              128 + (c / 64) mod 64; 128 + c mod 64]).
Proof.
  unfold utf8_encode_point.
  destruct (c <? 0) eqn:H0; [discriminate|]. apply Z.ltb_ge in H0.
  destruct (1114111 <? c) eqn:Hmax; [discriminate|]. apply Z.ltb_ge in Hmax.
  cbn [orb].
  destruct (c <? 128) eqn:H1;
    [apply Z.ltb_lt in H1; intros Hb; inversion Hb; left;
     split; [lia | reflexivity]|].
  apply Z.ltb_ge in H1.
  destruct (c <? 2048) eqn:H2;
    [apply Z.ltb_lt in H2; intros Hb; inversion Hb; right; left;
     split; [lia | reflexivity]|].
  apply Z.ltb_ge in H2.
  destruct (55296 <=? c) eqn:H3, (c <=? 57343) eqn:H4; cbn [andb];
    try discriminate;
    (destruct (c <? 65536) eqn:H5;
     [apply Z.ltb_lt in H5 | apply Z.ltb_ge in H5]);
    intros Hb; inversion Hb;
    try apply Z.leb_le in H3; try apply Z.leb_gt in H3;
    try apply Z.leb_le in H4; try apply Z.leb_gt in H4;
    try (right; right; left; split; [lia | reflexivity]);
    try (right; right; right; split; [lia | reflexivity]).
Qed.

Ltac arith := Z.div_mod_to_equations; lia.

Ltac settle_tests :=
  repeat match goal with
  | |- context [?a <? ?b] =>
    first [ replace (a <? b) with true by (symmetry; apply Z.ltb_lt; arith)
          | replace (a <? b) with false by (symmetry; apply Z.ltb_ge; arith) ]
  | |- context [?a <=? ?b] =>
    first [ replace (a <=? b) with true by (symmetry; apply Z.leb_le; arith)
          | replace (a <=? b) with false by (symmetry; apply Z.leb_gt; arith) ]
  | |- context [?a =? ?b] =>
    first [ replace (a =? b) with true by (symmetry; apply Z.eqb_eq; arith)
          | replace (a =? b) with false
              by (symmetry; apply Z.eqb_neq; arith) ]
  end.

Lemma utf8_decode_cons (b0 : Z) (r0 : list Z) :
  utf8_decode (b0 :: r0)
  = if b0 <? 128 then cons b0 <$> utf8_decode r0
    else if (194 <=? b0) && (b0 <=? 223) then
      match r0 with
      | b1 :: r1 =>
        if continuation 128 191 b1
        then cons ((b0 - 192) * 64 + (b1 - 128)) <$> utf8_decode r1
        else None
      | _ => None
      end
    else if (224 <=? b0) && (b0 <=? 239) then
      match r0 with
      | b1 :: b2 :: r2 =>
        let lo := if b0 =? 224 then 160 else 128 in
        let hi := if b0 =? 237 then 159 else 191 in
        if continuation lo hi b1 && continuation 128 191 b2
        then cons ((b0 - 224) * 4096 + (b1 - 128) * 64 + (b2 - 128))
               <$> utf8_decode r2
        else None
      | _ => None
      end
    else if (240 <=? b0) && (b0 <=? 244) then
      match r0 with
      | b1 :: b2 :: b3 :: r3 =>
        let lo := if b0 =? 240 then 144 else 128 in
        let hi := if b0 =? 244 then 143 else 191 in
        if continuation lo hi b1 && continuation 128 191 b2
           && continuation 128 191 b3
        then cons ((b0 - 240) * 262144 + (b1 - 128) * 4096
                   + (b2 - 128) * 64 + (b3 - 128)) <$> utf8_decode r3
        else None
      | _ => None
      end
    else None.
Proof. reflexivity. Qed.

(** Decoding the encoding of a code point in front of decodable bytes. *)
Lemma utf8_decode_point c b r s :
  utf8_encode_point c = Some b ->
  utf8_decode r = Some s ->
  utf8_decode (b ++ r) = Some (c :: s).
Proof.
  intros Hb Hr.
  destruct (utf8_encode_point_cases _ _ Hb)
    as [[Hc ->] | [[Hc ->] | [[Hc ->] | [Hc ->]]]];
    cbn [app]; rewrite utf8_decode_cons; unfold continuation; cbv zeta.
  - settle_tests. rewrite Hr. reflexivity.
  - settle_tests. cbn [andb]. rewrite Hr.
    cbn [fmap option_fmap option_map]. f_equal. f_equal. arith.
  - destruct (Z.eq_dec (c / 4096) 0) as [He|He],
             (Z.eq_dec (c / 4096) 13) as [Hd|Hd];
      try lia; settle_tests; cbn [andb]; settle_tests; cbn [andb];
      rewrite Hr; cbn [fmap option_fmap option_map]; f_equal; f_equal;
      arith.
  - destruct (Z.eq_dec (c / 262144) 0) as [He|He],
             (Z.eq_dec (c / 262144) 4) as [Hd|Hd];
      try lia; settle_tests; cbn [andb]; settle_tests; cbn [andb];
      rewrite Hr; cbn [fmap option_fmap option_map]; f_equal; f_equal;
      arith.
Qed.

Lemma utf8_decode_encode (s : text) (b : list Z) :
  utf8_encode s = Some b -> utf8_decode b = Some s.
Proof.
  revert b. induction s as [|c s IH]; intros b; cbn [utf8_encode].
  - intros Hb. inversion Hb. reflexivity.
  - destruct (utf8_encode_point c) as [bc|] eqn:Hc; [|discriminate].
    destruct (utf8_encode s) as [r|]; [|discriminate].
    intros Hb. inversion Hb. apply utf8_decode_point; auto.
Qed.

Lemma utf8_encode_app (a b : text) :
  utf8_encode (a ++ b)
  = match utf8_encode a, utf8_encode b with
    | Some za, Some zb => Some (za ++ zb)
    | _, _ => None
    end.
Proof.
  induction a as [|c a IH]; cbn [app utf8_encode].
  - destruct (utf8_encode b); reflexivity.
  - rewrite IH. destruct (utf8_encode_point c) as [zc|]; [|reflexivity].
    destruct (utf8_encode a) as [za|]; [|reflexivity].
    destruct (utf8_encode b) as [zb|]; [|reflexivity].
    rewrite app_assoc. reflexivity.
Qed.

(** Every value [utf8_encode] gives is a byte, and there are as many of them
    as code points exactly when all code points are ASCII. *)
Lemma utf8_encode_bytes (s : text) (z : list Z) :
  utf8_encode s = Some z ->
  map byte_val (bytes_of z) = z
  /\ len s <= len z
  /\ (len z = len s <-> Forall (fun c => c < 128) s).
Proof.
  revert z. induction s as [|c s IH]; intros z; cbn [utf8_encode].
  - intros Hz. inversion Hz. split; [reflexivity|]. split; [reflexivity|].
    split; [constructor | reflexivity].
  - destruct (utf8_encode_point c) as [zc|] eqn:Hc; [|discriminate].
    destruct (utf8_encode s) as [r|]; [|discriminate].
    intros Hz. inversion Hz. subst z. clear Hz.
    destruct (IH r eq_refl) as (Hbytes & Hle & Hiff).
    unfold bytes_of in *. rewrite !map_app, Hbytes. unfold len in *.
    rewrite length_app. cbn [length].
    destruct (utf8_encode_point_cases _ _ Hc)
      as [[Hr ->] | [[Hr ->] | [[Hr ->] | [Hr ->]]]];
      cbn [map length app]; rewrite !byte_val_byte_of;
      (split; [repeat f_equal; apply Z.mod_small; arith|]);
      (split; [lia|]); rewrite Forall_cons;
      (split;
       [ intros Hsame; split; [lia | apply Hiff; lia]
       | intros [Hascii Hrest]; apply Hiff in Hrest; lia ]).
Qed.

(** How [edit_file] is left: by the [EOFError] of [input()] that it
    catches, or by the [UnicodeEncodeError] of [s.encode()] that it does
    not. *)
Inductive EditResult := EditReturned | EditUnicodeEncodeError.

(** The [while True] loop of [edit_file] on the lines still to come on the
    standard input ([input()] returns each without its line break and
    raises [EOFError] after the last) and the contents of the file: how the
    loop is left, what the file holds then, and the lines not read. *)
Fixpoint edit_file_loop (stdin : list text) (f : bytes)
    : EditResult * bytes * list text :=
  match stdin with
  | [] => (EditReturned, f, [])
  | s :: stdin' =>
    match encode s with
    | Some b => edit_file_loop stdin' (f ++ b)
    | None => (EditUnicodeEncodeError, f, stdin')
    end
  end.

(** [edit_file(file_name)], for a file opened for appending that holds [f]:
    what is printed, and the loop. *)
Definition edit_file (stdin : list text) (f : bytes)
    : list string * (EditResult * bytes * list text) :=
  (["Enter Your New Text."%string], edit_file_loop stdin f).

(** Lines 445-446 of [main]: what the new file holds before it is edited;
    [None] when [to_bytes] or [encode] raises. *)
Definition new_file (file_name : text) : option bytes :=
  name_len ← to_bytes 8 (len file_name);
  name ← encode file_name;
  Some (name_len ++ name).

(** [edit_file] writes the lines one after the other with nothing between
    them: when every line typed can be encoded, all of them are read, the
    function returns, and the file has grown by the UTF-8 encoding of the
    lines joined together, which decodes to the joined text.  Where one
    line ended and the next began is not recorded. *)
Theorem edit_file_joins_lines (stdin : list text) (f : bytes)
    (typed : list Z) :
  utf8_encode (concat stdin) = Some typed ->
  edit_file stdin f
  = (["Enter Your New Text."%string],
     (EditReturned, f ++ bytes_of typed, []))
  /\ decode (bytes_of typed) = Some (concat stdin)
  /\ edit_file stdin f = edit_file [concat stdin] f.
Proof.
  intros Henc.
  assert (Hloop : forall lines g z,
            utf8_encode (concat lines) = Some z ->
            edit_file_loop lines g = (EditReturned, g ++ bytes_of z, [])).
  { induction lines as [|s lines IH]; intros g z; cbn [concat edit_file_loop].
    - intros Hz. inversion Hz. unfold bytes_of. cbn [map].
      rewrite app_nil_r. reflexivity.
    - rewrite utf8_encode_app. unfold encode.
      destruct (utf8_encode s) as [zs|]; [|discriminate].
      destruct (utf8_encode (concat lines)) as [zr|] eqn:Hrest;
        [|discriminate].
      intros Hz. inversion Hz. cbn [fmap option_fmap option_map].
      rewrite (IH _ zr eq_refl). unfold bytes_of. rewrite map_app, app_assoc.
      reflexivity. }
  split; [|split].
  - unfold edit_file. rewrite (Hloop _ _ _ Henc). reflexivity.
  - unfold decode. rewrite (proj1 (utf8_encode_bytes _ _ Henc)).
    apply utf8_decode_encode. exact Henc.
  - unfold edit_file. rewrite (Hloop _ _ _ Henc).
    cbn [edit_file_loop]. unfold encode. rewrite Henc. reflexivity.
Qed.

(** A line that cannot be encoded ends [edit_file] with the
    [UnicodeEncodeError] of [s.encode()], which only [EOFError] is caught
    before: the lines typed before it are in the file, that line is lost,
    and the lines after it are not read. *)
Theorem edit_file_stops_at_unencodable_line (good : list text) (bad : text)
    (rest : list text) (f : bytes) (typed : list Z) :
  utf8_encode (concat good) = Some typed ->
  encode bad = None ->
  edit_file (good ++ bad :: rest) f
  = (["Enter Your New Text."%string],
     (EditUnicodeEncodeError, f ++ bytes_of typed, rest)).
Proof.
  intros Hgood Hbad. unfold edit_file. f_equal.
  revert f typed Hgood.
  induction good as [|s good IH]; intros f typed;
    cbn [concat app edit_file_loop].
  - intros Hz. inversion Hz. rewrite Hbad. unfold bytes_of. cbn [map].
    rewrite app_nil_r. reflexivity.
  - rewrite utf8_encode_app. unfold encode at 1.
    destruct (utf8_encode s) as [zs|]; [|discriminate].
    destruct (utf8_encode (concat good)) as [zr|] eqn:Hrest; [|discriminate].
    intros Hz. inversion Hz. cbn [fmap option_fmap option_map].
    rewrite (IH _ zr eq_refl). unfold bytes_of. rewrite map_app, app_assoc.
    reflexivity.
Qed.

(** The file that [main] creates for an edit starts with the number of
    characters of the file name on 8 bytes, followed by the encoded name.
    The encoded name is at least that long, and exactly that long only for
    a name that is all ASCII: for any other name the 8 bytes do not tell
    where the name ends. *)
Theorem new_file_counts_characters (file_name : text) (content : bytes) :
  new_file file_name = Some content ->
  exists name_len name,
    content = name_len ++ name
    /\ length name_len = 8%nat
    /\ int_from_bytes name_len = len file_name
    /\ encode file_name = Some name
    /\ decode name = Some file_name
    /\ len file_name <= len name
    /\ (len name = len file_name <-> Forall (fun c => c < 128) file_name).
Proof.
  unfold new_file, encode.
  destruct (to_bytes 8 (len file_name)) as [name_len|] eqn:Hlen;
    [|discriminate].
  destruct (utf8_encode file_name) as [z|] eqn:Hz; [|discriminate].
  cbn. intros Hc. inversion Hc. subst content.
  destruct (utf8_encode_bytes _ _ Hz) as (Hbytes & Hle & Hiff).
  exists name_len, (bytes_of z).
  split; [reflexivity|].
  split; [exact (to_bytes_length _ _ _ Hlen)|].
  split; [exact (int_from_bytes_to_bytes _ _ _ Hlen)|].
  split; [reflexivity|].
  split; [unfold decode; rewrite Hbytes; apply utf8_decode_encode; exact Hz|].
  assert (Hsame : len (bytes_of z) = len z).
  { unfold len, bytes_of. rewrite length_map. reflexivity. }
  rewrite Hsame. split; [exact Hle | exact Hiff].
Qed.

(** ** Runs on the simulated collaborators *)

Module Runs.
Import Sim.
Import Concrete.

(** *** Facts about the stand-ins *)

Lemma pad_amount (data : bytes) : 1 <= 16 - len data mod 16 <= 16.
Proof. pose proof (Z.mod_pos_bound (len data) 16 ltac:(lia)). lia. Qed.

Lemma pad_block (x : bytes) : len x = 8 -> len (pad x) = 16.
Proof.
  intros Hx. unfold pad. rewrite Hx. unfold len in *.
  rewrite length_app, repeat_length. change (8 mod 16) with 8. lia.
Qed.

Lemma last_repeat {A} (x : A) (l : list A) (n : nat) :
  last (l ++ repeat x (S n)) = Some x.
Proof.
  replace (repeat x (S n)) with (repeat x n ++ [x]).
  - rewrite app_assoc. apply last_snoc.
  - change [x] with (repeat x 1). rewrite <- repeat_app.
    f_equal. lia.
Qed.

(** The cipher stand-in takes off the padding it put on. *)
Lemma unpad_pad (x : bytes) : unpad (pad x) = Some x.
Proof.
  unfold unpad, pad. pose proof (pad_amount x) as Hk.
  set (k := 16 - len x mod 16) in *.
  destruct (Z.to_nat k) as [|n] eqn:Hn; [lia|].
  rewrite map_app, map_repeat, last_repeat.
  rewrite byte_val_byte_of, (Z.mod_small k 256) by lia.
  assert (Hlen : len (x ++ repeat (byte_of k) (S n)) = len x + k).
  { unfold len. rewrite length_app, repeat_length. lia. }
  rewrite Hlen.
  assert (Hmod : (len x + k) mod 16 = 0).
  { unfold k. replace (len x + (16 - len x mod 16))
      with (16 + (len x - len x mod 16)) by lia.
    rewrite (Z.div_mod (len x) 16) at 1 by lia.
    replace (16 + (16 * (len x / 16) + len x mod 16 - len x mod 16))
      with ((1 + len x / 16) * 16) by lia.
    apply Z.mod_mul. lia. }
  rewrite Hmod.
  replace (1 <=? k) with true by (symmetry; apply Z.leb_le; lia).
  replace (k <=? 16) with true by (symmetry; apply Z.leb_le; lia).
  cbn [Z.eqb andb]. f_equal.
  rewrite length_app, repeat_length.
  replace (length x + S n - Z.to_nat k)%nat with (length x) by lia.
  apply take_app_length.
Qed.

(** A segment of the simulated stream feeds its bytes to the reader. *)
Lemma segment_feeds (m : nat) : forall b : bytes,
  (length b <= m)%nat ->
  feeds (match b with [] => [] | _ => [b] end : StreamReader) b.
Proof.
  induction m as [|m IH]; intros b Hm.
  - destruct b; [|simpl in Hm; lia].
    constructor; [reflexivity| |]; intros n Hn; change (len []) with 0 in Hn;
      lia.
  - destruct b as [|x b].
    { constructor; [reflexivity| |]; intros n Hn;
        change (len []) with 0 in Hn; lia. }
    constructor.
    + reflexivity.
    + intros n Hn. cbn [read asyncio seg_read].
      destruct (n =? 0) eqn:H0; [apply Z.eqb_eq in H0; lia|].
      destruct (n <? 0) eqn:Hneg; [apply Z.ltb_lt in Hneg; lia|].
      reflexivity.
    + intros n Hn. cbn [read asyncio seg_read].
      destruct (n =? 0) eqn:H0; [apply Z.eqb_eq in H0; lia|].
      destruct (n <? 0) eqn:Hneg; [apply Z.ltb_lt in Hneg; lia|].
      cbn [snd].
      assert (Hlen : (length (drop (Z.to_nat n) (x :: b)) <= m)%nat).
      { rewrite length_drop. simpl in *. lia. }
      specialize (IH _ Hlen).
      destruct (drop (Z.to_nat n) (x :: b)); exact IH.
Qed.

(** *** The properties at concrete inputs *)

Definition key0 : bytes := bytes_of [1; 2; 3; 4].

Definition session0 : SymmetricEncryptor := {| session_key := key0 |}.

(** A client whose streams are set but which has no session key yet. *)
Definition keyless_client : Client := set_encryptor None connected_client.

(** [send('view', b'hi')] on a connected client. *)
Lemma send_writes_one_frame_witness :
  exists header_len signature,
    send "view" hi iv0 (world_of connected_client [])
    = (Returned tt,
       with_written
         (iv0 ++ sym_encrypt key0 header_len iv0
              ++ sym_encrypt key0
                   (json_dumps "view" (len (sym_encrypt key0 hi iv0))) iv0
              ++ sym_encrypt key0 hi iv0 ++ signature)
         (world_of connected_client [])).
Proof.
  pose (w := world_of connected_client []).
  assert (Hlen : to_bytes 8
                   (len (sym_encrypt key0
                           (json_dumps "view" (len (sym_encrypt key0 hi iv0)))
                           iv0))
                 = Some (to_bytes_aux 8 48 [])).
  { vm_compute. reflexivity. }
  assert (Hsig : to_bytes 2048
                   (pow (int_from_bytes (sha512 hi)) 7
                        (key_n (client_private_key (self w))))
                 = Some (to_bytes_aux 2048 (pow (int_from_bytes (sha512 hi))
                                                7 33) [])).
  { vm_compute. reflexivity. }
  eexists _, _.
  exact (send_writes_one_frame "view" hi iv0 w session0 7 _ _
           eq_refl eq_refl eq_refl eq_refl Hlen Hsig).
Defined.

(** [send] and [send_file] on a client with streams and no session key. *)
Lemma send_without_session_leaves_iv_witness :
  send "view" hi iv0 (world_of keyless_client [])
  = (Raised AttributeError, with_written iv0 (world_of keyless_client []))
  /\ send_file "file_edit" hi iv0 (world_of keyless_client [])
     = (Raised AttributeError, with_written iv0 (world_of keyless_client [])).
Proof.
  exact (send_without_session_leaves_iv "view" hi hi iv0
           (world_of keyless_client []) eq_refl eq_refl eq_refl).
Defined.

(** A client straight from the constructor. *)
Lemma constructed_client_is_not_connected_witness :
  is_connected fresh_client = false
  /\ send "view" hi iv0 (world_of fresh_client [])
     = (Raised ConnectionError, world_of fresh_client [])
  /\ send_file "file_edit" hi iv0 (world_of fresh_client [])
     = (Raised ConnectionError, world_of fresh_client [])
  /\ terminate None (world_of fresh_client [])
     = (Raised AttributeError, world_of fresh_client []).
Proof.
  exact (constructed_client_is_not_connected "alice"
           ("localhost"%string, 6666) (public_key, private_key) []
           (world_of fresh_client []) "view" hi hi iv0 None eq_refl).
Defined.

(** [terminate] on a connected client, once with a wait that returns and
    once with a wait that ends in [ConnectionError]. *)
Lemma terminate_disconnects_witness :
  (exists w',
      terminate None (world_of connected_client []) = (Returned tt, w')
      /\ closed (writer_obj w') = true
      /\ is_connected (self w') = false)
  /\ (exists w',
        terminate (Some ConnectionError) (world_of connected_client [])
        = (Raised ConnectionError, w')
        /\ closed (writer_obj w') = true
        /\ is_connected (self w') = true).
Proof.
  split.
  - destruct (terminate_disconnects (world_of connected_client []) None
                "view" hi hi iv0 eq_refl)
      as (w' & Hr & Hclosed & _ & _ & _ & _ & _ & _ & Hconn & _).
    exists w'. split; [exact Hr|]. split; [exact Hclosed | exact Hconn].
  - destruct (terminate_disconnects (world_of connected_client [])
                (Some ConnectionError) "view" hi hi iv0 eq_refl)
      as (w' & Hr & Hclosed & _ & _ & _ & _ & _ & _ & Hconn).
    exists w'. split; [exact Hr|]. split; [exact Hclosed | exact Hconn].
Defined.

(** The handshake with a server that sends its key. *)
Lemma handshake_wire_format_witness :
  exists server_key public_key_len enc_len,
    import_key (export public_key) = Some server_key
    /\ written (writer_obj
                  (snd (handshake true key0
                          (world_of fresh_client [server_hello]))))
       = [] ++ public_key_len ++ export_key public_key ++ enc_len
         ++ asym_encrypt server_key key0.
Proof.
  pose (w := world_of fresh_client [server_hello]).
  assert (Hh : handshake true key0 w
               = (Returned tt, snd (handshake true key0 w))).
  { vm_compute. reflexivity. }
  destruct (handshake_wire_format true key0 w _ Hh)
    as (server_key & public_key_len & enc_len & Himp & _ & _ & Hwr & _).
  exists server_key, public_key_len, enc_len.
  split; [|exact Hwr].
  rewrite <- Himp. vm_compute. reflexivity.
Defined.

(** A hello cut after three bytes: [import_key] fails and the client is
    left holding its streams. *)
Lemma failed_handshake_is_not_released_witness :
  exists w1,
    create_connection 5 true key0
      (world_of fresh_client [take 3 server_hello])
    = (Raised ValueError, w1)
    /\ is_connected (self w1) = true.
Proof.
  pose (w := world_of fresh_client [take 3 server_hello]).
  assert (Hh : handshake true key0 w
               = (Raised ValueError, snd (handshake true key0 w))).
  { vm_compute. reflexivity. }
  destruct (failed_handshake_is_not_released 5 true key0 w _ _ Hh)
    as (Hr & Hconn & _).
  eexists. split; [exact Hr | exact Hconn].
Defined.


(** [send_file] on a file of 16 bytes: one chunk. *)
Lemma send_file_payload_in_chunks_witness :
  concat (chunks (bytes_of (repeat 7 16))) = bytes_of (repeat 7 16)
  /\ Forall (fun c => 0 < len c <= 1024) (chunks (bytes_of (repeat 7 16))).
Proof.
  pose (path := bytes_of (repeat 7 16)).
  pose (w := world_of connected_client []).
  assert (Hr : send_file "file_edit" path iv0 w
               = (Returned tt, snd (send_file "file_edit" path iv0 w))).
  { vm_compute. reflexivity. }
  destruct (send_file_payload_in_chunks "file_edit" path iv0 w _ Hr)
    as (enc & header_len & signature & _ & _ & _ & Hconcat & Hsizes & _).
  split; [exact Hconcat | exact Hsizes].
Defined.

(** One encrypted block streamed to a temporary file. *)
Lemma write_to_file_appends_what_it_hashes_witness :
  exists plain,
    file_data {| file_data := hi |} = file_data TemporaryFile ++ plain
    /\ sha512 hi = sha512 plain.
Proof.
  pose (w := world_of connected_client [pad hi]).
  assert (Hr : write_to_file TemporaryFile (Some reader_ref) 16 iv0 w
               = (Returned (sha512 hi, {| file_data := hi |}),
                  snd (write_to_file TemporaryFile (Some reader_ref) 16 iv0
                         w))).
  { vm_compute. reflexivity. }
  exact (proj1 (write_to_file_appends_what_it_hashes _ _ _ _ _ _ _ _ Hr)).
Defined.

(** A declared length of -1. *)
Lemma negative_length_by_mode_witness :
  fst (receive_payload BYTES (-1) iv0 (world_of connected_client []))
  = Raised ConnectionError
  /\ receive_payload FILE (-1) iv0 (world_of connected_client [])
     = (Returned (PFile TemporaryFile, sha512 []),
        world_of connected_client []).
Proof.
  exact (negative_length_by_mode (-1) iv0 (world_of connected_client [])
           ltac:(lia) eq_refl).
Defined.

(** The header of the frame [send('view', b'hi')] writes. *)
Lemma accepted_header_was_read_exactly_witness :
  exists length_field header,
    sym_decrypt key0
      (fst (read 16 (snd (read 16 [frame_view] : bytes * StreamReader))))
      iv0
    = Some length_field
    /\ json_loads header = Some ("view"%string, 16).
Proof.
  pose (w := world_of connected_client [frame_view]).
  assert (Hh : read_frame_header w
               = (Returned (iv0, ("view"%string, 16)),
                  snd (read_frame_header w))).
  { vm_compute. reflexivity. }
  destruct (accepted_header_was_read_exactly w _ iv0 "view" 16 Hh)
    as (enc & length_field & header & Henc & _ & _ & _ & Hdec & _ & _
        & Hjson & _).
  exists length_field, header. split; [|exact Hjson].
  inversion Henc. exact Hdec.
Defined.

(** A stream at EOF: the read of the IV comes back empty. *)
Lemma short_reads_end_the_iteration_witness :
  exists w',
    process_incoming_event (world_of connected_client [])
    = (Raised ConnectionError, w')
    /\ futures w' = futures (world_of connected_client []).
Proof.
  apply (proj1 (short_reads_end_the_iteration (world_of connected_client [])
                  eq_refl)).
  left. discriminate.
Defined.

(** The frame of [send('view', b'hi')] handed to the receive loop of a peer
    with the same session key and the matching public key: [b'hi'] is
    dispatched and nothing is printed. *)
Lemma sent_frame_is_received_witness :
  exists wr',
    process_incoming_event (world_of connected_client [frame_view])
    = (Returned tt, wr')
    /\ futures wr' = [{| task_fn := default_event; task_arg := PBytes hi |}]
    /\ stdout wr' = [].
Proof.
  pose (ws := world_of connected_client []).
  pose (wr := world_of connected_client [frame_view]).
  assert (Hsend : send "view" hi iv0 ws
                  = (Returned tt, snd (send "view" hi iv0 ws))).
  { vm_compute. reflexivity. }
  assert (Hjson : json_loads (json_dumps "view"
                                (len (sym_encrypt key0 hi iv0)))
                  = Some ("view"%string, len (sym_encrypt key0 hi iv0))).
  { vm_compute. reflexivity. }
  assert (Hfeeds : feeds (reader_obj wr) (frame_view ++ [])).
  { rewrite app_nil_r.
    pose proof (segment_feeds (length frame_view) frame_view (le_n _))
      as Hseg.
    destruct frame_view eqn:Hframe; [discriminate Hframe|].
    exact Hseg. }
  destruct (sent_frame_is_received "view" hi iv0 [] ws _ wr session0 7
              public_key frame_view Hsend eq_refl eq_refl eq_refl eq_refl
              (fun x Hx => pad_block x Hx) (fun x => unpad_pad x) Hjson
              eq_refl eq_refl eq_refl eq_refl Hfeeds)
    as (wr' & Hr & Hf & Hout & _).
  exists wr'. split; [exact Hr|]. split.
  - rewrite Hf. vm_compute. reflexivity.
  - rewrite Hout. vm_compute. reflexivity.
Defined.

(** A client that registered [file_edit] for the streamed mode, and a frame
    for that event. *)
Definition file_edit : Func := {| func_name := "file_edit"; func_id := 1 |}.

Definition streaming_client : Client :=
  event None FILE file_edit connected_client.

Definition frame_file_edit : bytes :=
  wire_of_send connected_client "file_edit" hi iv0.

Lemma streamed_frame_hands_over_a_file_witness :
  exists w' file,
    process_incoming_event (world_of streaming_client [frame_file_edit])
    = (Returned tt, w')
    /\ futures w'
       = [{| task_fn := wrapper "file_edit" file_edit;
             task_arg := PFile file |}]
    /\ await_call (wrapper "file_edit" file_edit) (PFile file)
       = Returned (Call file_edit [AData (PFile file)]).
Proof.
  pose (w := world_of streaming_client [frame_file_edit]).
  assert (Hh : read_frame_header w
               = (Returned (iv0, ("file_edit"%string, 16)),
                  snd (read_frame_header w))).
  { vm_compute. reflexivity. }
  assert (Hev : events (self w) !! "file_edit"%string
                = Some (wrapper "file_edit" file_edit, FILE)).
  { vm_compute. reflexivity. }
  assert (Hr : process_incoming_event w
               = (Returned tt, snd (process_incoming_event w))).
  { vm_compute. reflexivity. }
  destruct (streamed_frame_hands_over_a_file w _ _ iv0 "file_edit"
              "file_edit" 16 file_edit Hh Hev Hr)
    as (file & Hf & _ & Hcall).
  exists (snd (process_incoming_event w)), file.
  split; [exact Hr|]. split; [exact Hf|].
  apply Hcall; discriminate.
Defined.

(** Two lines typed, the second with a character outside ASCII. *)
Lemma edit_file_joins_lines_witness :
  edit_file [[104; 105]; [233]] []
  = (["Enter Your New Text."%string],
     (EditReturned, [] ++ bytes_of [104; 105; 195; 169], []))
  /\ decode (bytes_of [104; 105; 195; 169]) = Some [104; 105; 233].
Proof.
  destruct (edit_file_joins_lines [[104; 105]; [233]] []
              [104; 105; 195; 169] eq_refl) as (Hr & Hd & _).
  split; [exact Hr | exact Hd].
Defined.

(** A surrogate typed on the second line. *)
Lemma edit_file_stops_at_unencodable_line_witness :
  edit_file [[104]; [55296]; [105]] []
  = (["Enter Your New Text."%string],
     (EditUnicodeEncodeError, [] ++ bytes_of [104], [[105]])).
Proof.
  exact (edit_file_stops_at_unencodable_line [[104]] [55296] [[105]] []
           [104] eq_refl eq_refl).
Defined.

(** A file name of one character that takes two bytes. *)
Lemma new_file_counts_characters_witness :
  exists name_len name,
    int_from_bytes name_len = 1 /\ encode [233] = Some name
    /\ 1 <= len name.
Proof.
  destruct (new_file_counts_characters [233]
              (to_bytes_aux 8 1 [] ++ bytes_of [195; 169]) eq_refl)
    as (name_len & name & _ & _ & Hint & Henc & _ & Hle & _).
  exists name_len, name. split; [exact Hint|]. split; [exact Henc|].
  exact Hle.
Defined.

End Runs.
